(** * A shallow embedding of the apigateway request pipeline

    The gateway (src/app) is a FastAPI application whose behaviour lives in
    four middlewares (logging, cache, rate limit, auth), a router, and a
    Redis store shared by the rate limiter and the response cache.  This
    file embeds those pieces: Redis as a finite map with per-key expiry,
    Python exceptions as an error component of a state monad, wall-clock
    times and token counts as rationals. *)

From Stdlib Require Import ZArith QArith Qround Qabs Lia Lqa Bool List.
From Stdlib Require Import String Ascii Strings.Byte.
From stdpp Require Import base gmap strings.

Import ListNotations.
Open Scope string_scope.

(* ------------------------------------------------------------------ *)
(** ** Strings, bytes and numbers as Python has them *)

Definition dq : string := String "034"%char EmptyString.

Definition ascii_lower (c : ascii) : ascii :=
  let n := nat_of_ascii c in
  if (65 <=? n)%nat && (n <=? 90)%nat then ascii_of_nat (n + 32) else c.

Fixpoint str_lower (s : string) : string :=
  match s with
  | EmptyString => EmptyString
  | String c s' => String (ascii_lower c) (str_lower s')
  end.

(** [str.startswith] *)
Fixpoint str_startswith (s pre : string) : bool :=
  match pre, s with
  | EmptyString, _ => true
  | String c p', String d s' => Ascii.eqb c d && str_startswith s' p'
  | String _ _, EmptyString => false
  end.

(** Python's [sub in s] on strings. *)
Fixpoint str_contains (s sub : string) : bool :=
  str_startswith s sub ||
  match s with
  | EmptyString => false
  | String _ s' => str_contains s' sub
  end.

(** [str.removeprefix] *)
Definition str_removeprefix (s pre : string) : string :=
  if str_startswith s pre then substring (String.length pre) (String.length s) s
  else s.

Definition py_space (c : ascii) : bool :=
  let n := nat_of_ascii c in
  (n =? 32)%nat || ((9 <=? n)%nat && (n <=? 13)%nat) ||
  ((28 <=? n)%nat && (n <=? 31)%nat).

Fixpoint str_lstrip (s : string) : string :=
  match s with
  | String c s' => if py_space c then str_lstrip s' else s
  | EmptyString => EmptyString
  end.

Fixpoint str_rev (s : string) (acc : string) : string :=
  match s with
  | EmptyString => acc
  | String c s' => str_rev s' (String c acc)
  end.

(** [str.strip()] *)
Definition str_strip (s : string) : string :=
  str_rev (str_lstrip (str_rev (str_lstrip s) EmptyString)) EmptyString.

(** [s.split(',')[0]] *)
Fixpoint split_first (sep : ascii) (s : string) : string :=
  match s with
  | EmptyString => EmptyString
  | String c s' => if Ascii.eqb c sep then EmptyString else String c (split_first sep s')
  end.

(** [str(n)] for a Python int. *)
Fixpoint uint_to_string (u : Decimal.uint) : string :=
  match u with
  | Decimal.Nil => EmptyString
  | Decimal.D0 u' => String "0"%char (uint_to_string u')
  | Decimal.D1 u' => String "1"%char (uint_to_string u')
  | Decimal.D2 u' => String "2"%char (uint_to_string u')
  | Decimal.D3 u' => String "3"%char (uint_to_string u')
  | Decimal.D4 u' => String "4"%char (uint_to_string u')
  | Decimal.D5 u' => String "5"%char (uint_to_string u')
  | Decimal.D6 u' => String "6"%char (uint_to_string u')
  | Decimal.D7 u' => String "7"%char (uint_to_string u')
  | Decimal.D8 u' => String "8"%char (uint_to_string u')
  | Decimal.D9 u' => String "9"%char (uint_to_string u')
  end.

Definition py_str_int (z : Z) : string :=
  match Z.to_int z with
  | Decimal.Pos u => uint_to_string u
  | Decimal.Neg u => String "-"%char (uint_to_string u)
  end.

(** [int(x)] for a float: truncation toward zero. *)
Definition py_int (q : Q) : Z :=
  if Qle_bool 0 q then Qfloor q else (- Qfloor (- q))%Z.

(** [min(a, b)]: Python returns [b] only when [b < a]. *)
Definition py_min (a b : Q) : Q := if Qlt_le_dec b a then b else a.

(** [f"{x:.4f}"], rounding half away from zero on the exact value. *)
Definition fmt4 (q : Q) : string :=
  let n := Qround.Qfloor (Qabs q * 10000 + (1#2)) in
  let ip := (n / 10000)%Z in
  let fp := (n mod 10000)%Z in
  let pad := if (fp <? 10)%Z then "000" else if (fp <? 100)%Z then "00"
             else if (fp <? 1000)%Z then "0" else "" in
  (if Qlt_le_dec q 0 then "-" else "") ++ py_str_int ip ++ "." ++ pad ++ py_str_int fp.

(* ------------------------------------------------------------------ *)
(** ** UTF-8, as [bytes.decode()] / [str.encode()] do it (strict) *)

Definition bval (b : byte) : Z := Z.of_N (Byte.to_N b).

Definition cont (b : byte) (lo hi : Z) : bool := (lo <=? bval b)%Z && (bval b <=? hi)%Z.

Fixpoint utf8_decode (bs : list byte) : option (list Z) :=
  match bs with
  | [] => Some []
  | b0 :: r0 =>
    let v0 := bval b0 in
    if (v0 <? 128)%Z then option_map (cons v0) (utf8_decode r0)
    else if (194 <=? v0)%Z && (v0 <=? 223)%Z then
      match r0 with
      | b1 :: r1 => if cont b1 128 191
                    then option_map (cons ((v0 - 192) * 64 + (bval b1 - 128))%Z) (utf8_decode r1)
                    else None
      | [] => None
      end
    else if (224 <=? v0)%Z && (v0 <=? 239)%Z then
      let lo1 := if (v0 =? 224)%Z then 160%Z else 128%Z in
      let hi1 := if (v0 =? 237)%Z then 159%Z else 191%Z in
      match r0 with
      | b1 :: b2 :: r2 =>
        if cont b1 lo1 hi1 && cont b2 128 191
        then option_map (cons ((v0 - 224) * 4096 + (bval b1 - 128) * 64 + (bval b2 - 128))%Z)
                        (utf8_decode r2)
        else None
      | _ => None
      end
    else if (240 <=? v0)%Z && (v0 <=? 244)%Z then
      let lo1 := if (v0 =? 240)%Z then 144%Z else 128%Z in
      let hi1 := if (v0 =? 244)%Z then 143%Z else 191%Z in
      match r0 with
      | b1 :: b2 :: b3 :: r3 =>
        if cont b1 lo1 hi1 && cont b2 128 191 && cont b3 128 191
        then option_map (cons ((v0 - 240) * 262144 + (bval b1 - 128) * 4096
                               + (bval b2 - 128) * 64 + (bval b3 - 128))%Z)
                        (utf8_decode r3)
        else None
      | _ => None
      end
    else None
  end.

Definition byte_of (z : Z) : byte :=
  match Byte.of_N (Z.to_N z) with Some b => b | None => x00 end.

Definition utf8_encode_char (c : Z) : list byte :=
  if (c <? 128)%Z then [byte_of c]
  else if (c <? 2048)%Z then [byte_of (192 + c / 64); byte_of (128 + c mod 64)]
  else if (c <? 65536)%Z then
    [byte_of (224 + c / 4096); byte_of (128 + (c / 64) mod 64); byte_of (128 + c mod 64)]
  else [byte_of (240 + c / 262144); byte_of (128 + (c / 4096) mod 64);
        byte_of (128 + (c / 64) mod 64); byte_of (128 + c mod 64)].

Definition utf8_encode (cs : list Z) : list byte := flat_map utf8_encode_char cs.

Definition ascii_bytes (s : string) : list byte := list_byte_of_string s.

(* ------------------------------------------------------------------ *)
(** ** Headers, requests and responses (Starlette) *)

(** Header lists hold lower-case names, as Starlette's raw headers do. *)
Definition headers := list (string * string).

(** [Headers.get]: the first raw entry equal to the lower-cased name. *)
Fixpoint hdr_get (name : string) (hs : headers) : option string :=
  match hs with
  | [] => None
  | (k, v) :: t => if String.eqb k (str_lower name) then Some v else hdr_get name t
  end.

(** [MutableHeaders.__setitem__]: the first entry with that name is
    replaced, the others are dropped; absent names are appended. *)
Fixpoint hdr_set_found (k v : string) (hs : headers) (found : bool) : headers :=
  match hs with
  | [] => []
  | (k', v') :: t =>
    if String.eqb k' k then
      (if found then hdr_set_found k v t true else (k, v) :: hdr_set_found k v t true)
    else (k', v') :: hdr_set_found k v t found
  end.

Definition hdr_set (name v : string) (hs : headers) : headers :=
  let k := str_lower name in
  if List.existsb (fun '(k', _) => String.eqb k' k) hs then hdr_set_found k v hs false
  else app hs [(k, v)].

(** [dict(headers)]: later duplicates overwrite earlier ones. *)
Definition hdr_dict (hs : headers) : headers :=
  fold_left (fun acc '(k, v) =>
    if List.existsb (fun '(k', _) => String.eqb k' k) acc
    then map (fun '(k', v') => if String.eqb k' k then (k', v) else (k', v')) acc
    else app acc [(k, v)]) hs [].

(** [dict.pop(name, None)]: case-sensitive on the dict's keys. *)
Definition dict_pop (name : string) (hs : headers) : headers :=
  List.filter (fun '(k, _) => negb (String.eqb k name)) hs.

Record request := mkRequest {
  rq_method : string;
  rq_path : string;
  rq_query : string;
  rq_headers : headers;
  rq_body : list byte;
  rq_client_host : string;
  (** [request.state.user]: absent until the authenticator sets it. *)
  rq_user : option (list (string * string))
}.

Definition set_user (r : request) (p : list (string * string)) : request :=
  mkRequest (rq_method r) (rq_path r) (rq_query r) (rq_headers r) (rq_body r)
            (rq_client_host r) (Some p).

Record response := mkResponse {
  rs_status : Z;
  rs_headers : headers;
  rs_body : list byte
}.

Definition set_header (name v : string) (rs : response) : response :=
  mkResponse (rs_status rs) (hdr_set name v (rs_headers rs)) (rs_body rs).

(** [Response.init_headers] of Starlette. *)
Definition init_headers (status : Z) (body : list byte) (media_type : option string)
    (hs : headers) : headers :=
  let raw := map (fun '(k, v) => (str_lower k, v)) hs in
  let has k := List.existsb (fun '(k', _) => String.eqb k' k) raw in
  let raw := if negb (has "content-length") &&
                negb ((status <? 200)%Z || (status =? 204)%Z || (status =? 304)%Z)
             then app raw [("content-length", py_str_int (Z.of_nat (List.length body)))]
             else raw in
  match media_type with
  | Some ct => if has "content-type" then raw else app raw [("content-type", ct)]
  | None => raw
  end.

(** [Response(content, status_code, headers, media_type)] *)
Definition mk_response (body : list byte) (status : Z) (hs : headers)
    (media_type : option string) : response :=
  mkResponse status (init_headers status body media_type hs) body.

(** [JSONResponse({"detail": msg}, status_code, headers)], with the
    compact separators Starlette uses; [msg] is JSON-escaped. *)
Definition json_escape_char (c : ascii) : string :=
  let n := nat_of_ascii c in
  if (n =? 34)%nat then String "\"%char (String c EmptyString)
  else if (n =? 92)%nat then String "\"%char (String c EmptyString)
  else if (n =? 10)%nat then "\n"
  else if (n =? 13)%nat then "\r"
  else if (n =? 9)%nat then "\t"
  else if (n =? 8)%nat then "\b"
  else if (n =? 12)%nat then "\f"
  else if (n <? 32)%nat then
    "\u00" ++ String (ascii_of_nat (48 + n / 16))
                     (String (let d := n mod 16 in
                              ascii_of_nat (if (d <? 10)%nat then 48 + d else 87 + d)) EmptyString)
  else String c EmptyString.

Fixpoint json_escape (s : string) : string :=
  match s with
  | EmptyString => EmptyString
  | String c s' => json_escape_char c ++ json_escape s'
  end.

Definition json_obj1 (k v : string) : string :=
  "{" ++ dq ++ k ++ dq ++ ":" ++ dq ++ json_escape v ++ dq ++ "}".

Definition json_response (k v : string) (status : Z) (hs : headers) : response :=
  mk_response (ascii_bytes (json_obj1 k v)) status hs (Some "application/json").

Definition detail_response (msg : string) (status : Z) (hs : headers) : response :=
  json_response "detail" msg status hs.

(* ------------------------------------------------------------------ *)
(** ** Exceptions, the Redis store, and the gateway state monad *)

(** The Python exceptions that matter on these paths. *)
Inductive exn :=
| ZeroDivisionError
| TypeError
| UnicodeDecodeError
| WatchError                       (** [redis.WatchError] *)
| RedisError (msg : string)        (** any other [redis] failure *)
| HTTPException (status : Z) (detail : string).

(** A cached response as [cache_response] serialises it to JSON: the body
    decoded to text (code points), status, cleaned headers, [cached_at]. *)
Record cache_entry := mkEntry {
  ce_content : list Z;
  ce_status : Z;
  ce_headers : headers;
  ce_cached_at : Q
}.

(** A Redis value: a hash with the two bucket fields, or a string. *)
Inductive rvalue :=
| RHash (tokens : option Q) (last_refill : option Q)
| RStr (e : cache_entry).

(** What the store does to one optimistic transaction of the limiter:
    another replica wrote the watched key ([FConflict], so EXEC raises
    WatchError), or the connection failed ([FError]). *)
Inductive fault := FConflict | FError.

Record gstate := mkState {
  db : gmap string (rvalue * option Q);   (** value and expiry instant *)
  clock : Q;                              (** what [time.time()] returns *)
  faults : list fault;                    (** pending store misbehaviour *)
  origin_log : list request               (** requests sent to the origin *)
}.

Definition set_db (st : gstate) (d : gmap string (rvalue * option Q)) : gstate :=
  mkState d (clock st) (faults st) (origin_log st).

(** A computation that may raise: the store keeps what was written before
    the exception, as Redis does. *)
Definition M (A : Type) : Type := gstate -> (exn + A) * gstate.

Definition ret {A} (a : A) : M A := fun st => (inr a, st).
Definition bind {A B} (m : M A) (k : A -> M B) : M B :=
  fun st => match m st with
            | (inl e, st') => (inl e, st')
            | (inr a, st') => k a st'
            end.
Definition raise {A} (e : exn) : M A := fun st => (inl e, st).

Notation "'let*' x ':=' m 'in' k" := (bind m (fun x => k))
  (at level 200, x pattern, m at level 100, k at level 200).

(** [try: m except Exception: h] *)
Definition try_all {A} (m : M A) (h : exn -> M A) : M A :=
  fun st => match m st with
            | (inl e, st') => h e st'
            | r => r
            end.

(** [try: m except redis.WatchError: h] *)
Definition try_watch {A} (m : M A) (h : M A) : M A :=
  fun st => match m st with
            | (inl WatchError, st') => h st'
            | r => r
            end.

Definition time_now : M Q := fun st => (inr (clock st), st).

Definition next_fault : M (option fault) :=
  fun st => match faults st with
            | [] => (inr None, st)
            | f :: fs => (inr (Some f), mkState (db st) (clock st) fs (origin_log st))
            end.

(** A key is live while the clock is before its expiry. *)
Definition redis_lookup (k : string) : M (option rvalue) :=
  fun st => (inr (match db st !! k with
                  | Some (v, Some exp) => if Qlt_le_dec (clock st) exp then Some v else None
                  | Some (v, None) => Some v
                  | None => None
                  end), st).

(** [HMGET key tokens last_refill] *)
Definition redis_hmget (k : string) : M (option Q * option Q) :=
  let* v := redis_lookup k in
  match v with
  | None => ret (None, None)
  | Some (RHash t l) => ret (t, l)
  | Some (RStr _) => raise (RedisError "WRONGTYPE")
  end.

(** [MULTI; HSET key tokens t last_refill l; EXPIRE key ttl; EXEC];
    a non-positive EXPIRE deletes the key. *)
Definition redis_hset_expire (k : string) (t l : Q) (ttl : Z) : M unit :=
  fun st =>
    let d := if (0 <? ttl)%Z
             then <[k := (RHash (Some t) (Some l), Some (clock st + inject_Z ttl)%Q)]> (db st)
             else delete k (db st) in
    (inr tt, set_db st d).

(** [GET key] for the cache: a hash under the key is a WRONGTYPE error. *)
Definition redis_get (k : string) : M (option cache_entry) :=
  let* v := redis_lookup k in
  match v with
  | None => ret None
  | Some (RStr e) => ret (Some e)
  | Some (RHash _ _) => raise (RedisError "WRONGTYPE")
  end.

(** [SETEX key ttl value]; Redis refuses a non-positive ttl. *)
Definition redis_setex (k : string) (ttl : Z) (e : cache_entry) : M unit :=
  fun st =>
    if (0 <? ttl)%Z
    then (inr tt, set_db st (<[k := (RStr e, Some (clock st + inject_Z ttl)%Q)]> (db st)))
    else (inl (RedisError "invalid expire time in 'setex' command"), st).

(* ------------------------------------------------------------------ *)
(** ** [RedisRateLimiter] (src/app/middleware/rate_limit.py) *)

Record limiter := mkLimiter {
  max_tokens : Z;
  refill_rate : Q;      (** tokens per second *)
  window_size : Z
}.

(** [RedisRateLimiter.__init__]: [refill_rate = rate / window] is a true
    division, which raises on a zero window. *)
Definition new_limiter (rate_limit_per_minute window_size_seconds : Z) : exn + limiter :=
  if (window_size_seconds =? 0)%Z then inl ZeroDivisionError
  else inr (mkLimiter rate_limit_per_minute
                      (inject_Z rate_limit_per_minute / inject_Z window_size_seconds)
                      window_size_seconds).

Definition max_retries : nat := 3.

(** The token-bucket arithmetic of one attempt: from the stored fields to
    [(is_limited, tokens)] to be written back. *)
Definition bucket_update (lim : limiter) (now : Q) (bucket : option Q * option Q) : bool * Q :=
  let tokens := match fst bucket with Some t => t | None => inject_Z (max_tokens lim) end in
  let last_refill := match snd bucket with Some l => l | None => now end in
  let time_elapsed := (now - last_refill)%Q in
  let tokens_to_add := (time_elapsed * refill_rate lim)%Q in
  let tokens := py_min (inject_Z (max_tokens lim)) (tokens + tokens_to_add)%Q in
  let is_limited := if Qlt_le_dec tokens 1 then true else false in
  let tokens := if is_limited then tokens else (tokens - 1)%Q in
  (is_limited, tokens).

(** One pass of the body of the [for attempt in range(max_retries)] loop:
    WATCH, HMGET, compute, MULTI/HSET/EXPIRE/EXEC.  The pending [fault]
    decides whether the store fails or the EXEC aborts. *)
Definition rl_attempt (lim : limiter) (key : string) (now : Q) (ttl : Z) : M (bool * Z) :=
  let* f := next_fault in
  match f with
  | Some FError => raise (RedisError "connection error")
  | _ =>
    let* bucket := redis_hmget key in
    let '(is_limited, tokens) := bucket_update lim now bucket in
    match f with
    | Some FConflict => raise WatchError
    | _ =>
      let* _ := redis_hset_expire key tokens now ttl in
      ret (is_limited, py_int tokens)
    end
  end.

(** The retry loop; [None] is the loop running out without a [return]. *)
Fixpoint rl_loop (lim : limiter) (key : string) (now : Q) (ttl : Z)
    (attempt left : nat) : M (option (bool * Z)) :=
  match left with
  | O => ret None
  | S left' =>
    try_watch
      (let* r := rl_attempt lim key now ttl in ret (Some r))
      (if Nat.eqb attempt (max_retries - 1)
       then ret (Some (false, max_tokens lim))
       else rl_loop lim key now ttl (S attempt) left')
  end.

(** [RedisRateLimiter.is_rate_limited]; [None] is Python's implicit
    [return None] after the [with] block. *)
Definition is_rate_limited (lim : limiter) (client_id : string) : M (option (bool * Z)) :=
  let* now := time_now in
  let key := "rate_limit:" ++ client_id in
  let ttl := (window_size lim * 3)%Z in
  try_all (rl_loop lim key now ttl 0 max_retries)
          (fun _ => ret (Some (false, max_tokens lim))).

(** [RateLimitMiddleware._get_client_id] *)
Fixpoint dict_get (k : string) (d : list (string * string)) : option string :=
  match d with
  | [] => None
  | (k', v) :: t => if String.eqb k' k then Some v else dict_get k t
  end.

Definition _get_client_id (r : request) : string :=
  let fallback :=
    match hdr_get "X-Forwarded-For" (rq_headers r) with
    | Some forwarded =>
      if String.eqb forwarded "" then "ip:" ++ rq_client_host r
      else "ip:" ++ str_strip (split_first ","%char forwarded)
    | None => "ip:" ++ rq_client_host r
    end in
  match rq_user r with
  | Some u =>
    match dict_get "sub" u with
    | Some sub => if String.eqb sub "" then fallback else "user:" ++ sub
    | None => fallback
    end
  | None => fallback
  end.

(* ------------------------------------------------------------------ *)
(** ** Configuration (src/app/config.py) *)

Record settings := mkSettings {
  CACHE_ENABLED : bool;
  CACHE_TTL : Z;
  RATE_LIMIT_ENABLED : bool;
  RATE_LIMIT_PER_MINUTE : Z;
  RATE_LIMIT_WINDOW_SECONDS : Z
}.

(** Python's [x or y] on ints. *)
Definition z_or (x : option Z) (y : Z) : Z :=
  match x with Some v => if (v =? 0)%Z then y else v | None => y end.

(** [RateLimitMiddleware.__init__] *)
Definition new_rate_limit_mw (s : settings) (rate_limit_per_minute window_size_seconds : option Z)
    : exn + limiter :=
  new_limiter (z_or rate_limit_per_minute (RATE_LIMIT_PER_MINUTE s))
              (z_or window_size_seconds (RATE_LIMIT_WINDOW_SECONDS s)).

Record cache_mw := mkCacheMw {
  default_ttl : Z;
  cache_enabled : bool
}.

(** [CacheMiddleware.__init__] *)
Definition new_cache_mw (s : settings) (cache_ttl : option Z) (enabled : option bool) : cache_mw :=
  mkCacheMw (z_or cache_ttl (CACHE_TTL s))
            (match enabled with Some b => b | None => CACHE_ENABLED s end).

(** What [jwt.decode] does with a token: the payload, or the exception it
    raises ([ExpiredSignatureError], another [PyJWTError], or anything else
    with its message). *)
Inductive jwt_result :=
| JwtOk (payload : list (string * string))
| JwtExpired
| JwtInvalid
| JwtCrash (msg : string).

(** The middlewares [main.py] installs. *)
Inductive middleware :=
| MwLogging
| MwCache (c : cache_mw)
| MwRateLimit (lim : limiter)
| MwAuth.

Definition handler := request -> M response.

(** Starlette's [add_middleware] inserts at the front of
    [user_middleware]. *)
Definition add_middleware (m : middleware) (stack : list middleware) : list middleware :=
  m :: stack.

(** The sequence of [main.py]; a limiter whose construction raises makes
    the application fail to build. *)
Definition main_middleware (s : settings) : exn + list middleware :=
  let s0 := add_middleware MwLogging [] in
  let s1 := if CACHE_ENABLED s
            then add_middleware (MwCache (new_cache_mw s (Some (CACHE_TTL s)) None)) s0
            else s0 in
  let s2 := if RATE_LIMIT_ENABLED s
            then match new_rate_limit_mw s (Some (RATE_LIMIT_PER_MINUTE s))
                                           (Some (RATE_LIMIT_WINDOW_SECONDS s)) with
                 | inl e => inl e
                 | inr lim => inr (add_middleware (MwRateLimit lim) s1)
                 end
            else inr s1 in
  match s2 with
  | inl e => inl e
  | inr s2 => inr (add_middleware MwAuth s2)
  end.

Definition py_div (a b : Q) : M Q :=
  if Qeq_bool b 0 then raise ZeroDivisionError else ret (a / b)%Q.

Definition gateway_injected (k : string) : bool :=
  let kl := str_lower k in
  String.eqb kl "x-cache" || String.eqb kl "x-process-time" || String.eqb kl "x-cache-ttl".

Definition clean_headers (hs : headers) : headers :=
  List.filter (fun '(k, _) => negb (gateway_injected k)) hs.

(** Assignment [d[k] = v] on a Python dict (case-sensitive keys). *)
Definition dict_set (k v : string) (d : headers) : headers :=
  if List.existsb (fun '(k', _) => String.eqb k' k) d
  then List.map (fun '(k', v') => if String.eqb k' k then (k', v) else (k', v')) d
  else app d [(k, v)].

Definition should_cache_request (r : request) : bool :=
  String.eqb (rq_method r) "GET" &&
  negb (String.eqb (rq_path r) "/health") &&
  negb (match hdr_get "Cache-Control" (rq_headers r) with
        | Some v => String.eqb v "no-cache"
        | None => false
        end).

Definition should_cache_response (rs : response) : bool :=
  if (rs_status rs <? 200)%Z || (300 <=? rs_status rs)%Z then false
  else
    let cache_control := match hdr_get "Cache-Control" (rs_headers rs) with
                         | Some v => v | None => "" end in
    negb (str_contains cache_control "no-cache" || str_contains cache_control "no-store").

(** The caller-identity component of the cache fingerprint. *)
Definition cache_identity (r : request) : string :=
  match rq_user r with
  | Some u =>
    match u with
    | [] => "anonymous"
    | _ => "user:" ++ match dict_get "sub" u with Some s => s | None => "anonymous" end
    end
  | None => "anonymous"
  end.

Definition internal_error_response : response :=
  mk_response (ascii_bytes "Internal Server Error") 500 [] (Some "text/plain; charset=utf-8").

(* ------------------------------------------------------------------ *)
(** ** The middlewares and the router

    Four collaborators are outside this repository and stay abstract: the
    MD5 hex digest, PyJWT's [decode] under the configured secret, issuer and
    audience, the downstream origin ([None] is an [httpx.HTTPError]), and
    the admin and test endpoints of [proxy.py] other than [/health]. *)

Section Gateway.

Variable md5_hex : string -> string.
Variable jwt_decode : string -> jwt_result.
Variable origin : request -> option response.
Variable local_routes : request -> option (M response).

(** [ResponseCache._generate_cache_key] *)
Definition _generate_cache_key (r : request) : string :=
  let key_string := rq_method r ++ "|" ++ rq_path r ++ "|" ++ rq_query r ++ "|" ++
                    cache_identity r in
  "cache:" ++ md5_hex key_string.

(** [ResponseCache.get_cached_response] *)
Definition get_cached_response (r : request) : M (option (list byte * Z * headers)) :=
  if negb (should_cache_request r) then ret None
  else
    try_all
      (let* cached := redis_get (_generate_cache_key r) in
       match cached with
       | Some e => ret (Some (utf8_encode (ce_content e), ce_status e, clean_headers (ce_headers e)))
       | None => ret None
       end)
      (fun _ => ret None).

(** The [try] block of [ResponseCache.cache_response]. *)
Definition cache_write (cache_key : string) (cache_ttl : Z) (rs : response) (content : list byte)
    : M unit :=
  let headers_to_store := clean_headers (rs_headers rs) in
  let* text := match content with
               | [] => ret []
               | _ => match utf8_decode content with
                      | Some cs => ret cs
                      | None => raise UnicodeDecodeError
                      end
               end in
  let* now := time_now in
  redis_setex cache_key cache_ttl (mkEntry text (rs_status rs) headers_to_store now).

(** [ResponseCache.cache_response]: write errors are logged and dropped. *)
Definition cache_response (c : cache_mw) (r : request) (rs : response) (content : list byte)
    (ttl : option Z) : M unit :=
  if negb (should_cache_response rs) then ret tt
  else
    let cache_key := _generate_cache_key r in
    let cache_ttl := z_or ttl (default_ttl c) in
    try_all (cache_write cache_key cache_ttl rs content) (fun _ => ret tt).

(** [CacheMiddleware.dispatch].  [call_next] of [BaseHTTPMiddleware]
    returns a streaming response without a [body] attribute, so the MISS
    path always takes the branch that drains and rebuilds the response. *)
Definition cache_dispatch (c : cache_mw) (call_next : handler) (r : request) : M response :=
  if negb (cache_enabled c) then
    let* response := call_next r in
    ret (set_header "X-Cache" "DISABLED" response)
  else
    let* cached := get_cached_response r in
    match cached with
    | Some (content, status_code, hs) =>
      let hs := dict_set "X-Cache-TTL" (py_str_int (default_ttl c)) (dict_set "X-Cache" "HIT" hs) in
      ret (mk_response content status_code hs None)
    | None =>
      let* start_time := time_now in
      let* response := call_next r in
      let* end_time := time_now in
      let process_time := (end_time - start_time)%Q in
      let response := set_header "X-Cache" "MISS" response in
      let response := set_header "X-Process-Time" (fmt4 process_time) response in
      let content := rs_body response in
      let hs := dict_pop "X-Process-Time" (dict_pop "X-Cache" (hdr_dict (rs_headers response))) in
      let response := mk_response content (rs_status response) hs None in
      let response := set_header "X-Cache" "MISS" response in
      let response := set_header "X-Process-Time" (fmt4 process_time) response in
      let* _ := cache_response c r response content None in
      ret response
  end.

Definition rate_limit_headers (lim : limiter) (remaining reset_time : Z) : headers :=
  [("X-RateLimit-Limit", py_str_int (max_tokens lim));
   ("X-RateLimit-Remaining", py_str_int remaining);
   ("X-RateLimit-Reset", py_str_int reset_time)].

(** [RateLimitMiddleware.dispatch] *)
Definition rate_limit_dispatch (lim : limiter) (call_next : handler) (r : request) : M response :=
  if String.eqb (rq_path r) "/health" then call_next r
  else
    let client_id := _get_client_id r in
    let* res := is_rate_limited lim client_id in
    match res with
    | None => raise TypeError
    | Some (limited, remaining) =>
      let* now := time_now in
      let* seconds_per_token := py_div 1 (refill_rate lim) in
      let reset_time := (py_int (now + seconds_per_token) + 1)%Z in
      let hs := rate_limit_headers lim remaining reset_time in
      if limited then ret (detail_response "Too many requests" 429 hs)
      else
        let* response := call_next r in
        ret (fold_left (fun rs '(k, v) => set_header k v rs) hs response)
    end.

(** [auth_middleware] *)
Definition auth_dispatch (call_next : handler) (r : request) : M response :=
  if String.eqb (rq_path r) "/health" then call_next r
  else
    match hdr_get "Authorization" (rq_headers r) with
    | Some auth =>
      if negb (String.eqb auth "") && str_startswith auth "Bearer " then
        let token := str_strip (str_removeprefix auth "Bearer ") in
        match jwt_decode token with
        | JwtOk payload => call_next (set_user r payload)
        | JwtExpired => ret (detail_response "Token expired" 401 [])
        | JwtInvalid => ret (detail_response "Token invalid" 401 [])
        | JwtCrash msg => ret (detail_response ("Auth error: " ++ msg) 500 [])
        end
      else ret (detail_response "Missing or invalid Authorization header" 401 [])
    | None => ret (detail_response "Missing or invalid Authorization header" 401 [])
    end.

(** [LoggingMiddleware.dispatch]: logs and re-raises, no other effect. *)
Definition logging_dispatch (call_next : handler) (r : request) : M response :=
  call_next r.

Definition run_middleware (m : middleware) (inner : handler) : handler :=
  match m with
  | MwLogging => logging_dispatch inner
  | MwCache c => cache_dispatch c inner
  | MwRateLimit lim => rate_limit_dispatch lim inner
  | MwAuth => auth_dispatch inner
  end.

(** [build_middleware_stack]: the first entry of [user_middleware] is the
    outermost layer. *)
Definition build_stack (stack : list middleware) (app : handler) : handler :=
  fold_right run_middleware app stack.

(** [proxy_request]: the forwarded request keeps method, path, query and
    body, and drops the [host] header; transport failures become 502. *)
Definition forwarded_request (r : request) : request :=
  mkRequest (rq_method r) (rq_path r) (rq_query r)
            (dict_pop "host" (hdr_dict (rq_headers r))) (rq_body r) (rq_client_host r) None.

Definition proxy_request (r : request) : M response :=
  fun st =>
    let fwd := forwarded_request r in
    let st' := mkState (db st) (clock st) (faults st) (app (origin_log st) [fwd]) in
    match origin fwd with
    | None => (inl (HTTPException 502 "Bad Gateway"), st')
    | Some up => (inr (mk_response (rs_body up) (rs_status up) (hdr_dict (rs_headers up)) None), st')
    end.

Definition health_response : response := json_response "status" "healthy" 200 [].

Definition proxy_methods : list string := ["GET"; "HEAD"; "POST"; "PUT"; "DELETE"; "PATCH"].

(** The router of [proxy.py]: [/health] first, then the admin and test
    endpoints, then the catch-all proxy route. *)
Definition route (r : request) : M response :=
  if String.eqb (rq_path r) "/health" &&
     (String.eqb (rq_method r) "GET" || String.eqb (rq_method r) "HEAD")
  then ret health_response
  else match local_routes r with
       | Some h => h
       | None =>
         if List.existsb (String.eqb (rq_method r)) proxy_methods then proxy_request r
         else ret (detail_response "Method Not Allowed" 405 [])
       end.

(** Starlette's [ExceptionMiddleware] turns an [HTTPException] raised by
    an endpoint into a JSON response, below the user middlewares. *)
Definition router_app (r : request) : M response :=
  fun st => match route r st with
            | (inl (HTTPException status detail), st') => (inr (detail_response detail status []), st')
            | res => res
            end.

(** [ServerErrorMiddleware], the outermost layer: any exception becomes a
    plain 500. *)
Definition server_error (h : handler) (r : request) : M response :=
  try_all (h r) (fun _ => ret internal_error_response).

(** The application of [main.py], serving one request. *)
Definition gateway (s : settings) (r : request) : M response :=
  match main_middleware s with
  | inl e => raise e
  | inr stack => server_error (build_stack stack router_app) r
  end.

End Gateway.

(** ** Cache invalidation (src/app/middleware/cache.py, src/app/routers/proxy.py)

    Redis's glob matcher for [KEYS] stays abstract. *)

Section Invalidation.

Variable glob_match : string -> string -> bool.

(** A key is live while the clock is before its expiry, as in
    [redis_lookup]. *)
Definition live_key (st : gstate) (k : string) : bool :=
  match db st !! k with
  | Some (_, Some exp) => if Qlt_le_dec (clock st) exp then true else false
  | Some (_, None) => true
  | None => false
  end.

(** [KEYS pattern]: the live keys the pattern matches. *)
Definition redis_keys (pattern : string) : M (list string) :=
  fun st => (inr (List.filter (fun k => live_key st k && glob_match pattern k)
                              (map fst (map_to_list (db st)))), st).

(** [DEL k1 k2 ...] *)
Definition redis_delete (ks : list string) : M unit :=
  fun st => (inr tt, set_db st (fold_left (fun d k => delete k d) ks (db st))).

(** [ResponseCache.invalidate_cache_pattern] *)
Definition invalidate_cache_pattern (pattern : string) : M unit :=
  try_all
    (let* keys := redis_keys ("cache:" ++ pattern) in
     match keys with
     | [] => ret tt
     | _ => redis_delete keys
     end)
    (fun _ => ret tt).

(** The body FastAPI renders for [clear_cache]'s dict. *)
Definition clear_cache_body (n : Z) : string :=
  "{" ++ dq ++ "message" ++ dq ++ ":" ++ dq ++ "Cache cleared successfully" ++ dq ++ "," ++
  dq ++ "keys_deleted" ++ dq ++ ":" ++ py_str_int n ++ "}".

(** [clear_cache], the [DELETE /admin/cache] endpoint. *)
Definition clear_cache : M response :=
  let* cache_keys := redis_keys "cache:*" in
  let* _ := match cache_keys with
            | [] => ret tt
            | _ => redis_delete cache_keys
            end in
  ret (mk_response (ascii_bytes (clear_cache_body (Z.of_nat (List.length cache_keys)))) 200 []
                   (Some "application/json")).

End Invalidation.

(** A sequence of limiter calls for one client, the [i]-th at clock
    [nows_i]; the store and pending faults carry over between calls. *)
Fixpoint run_calls (lim : limiter) (client_id : string) (nows : list Q) (st : gstate) : gstate :=
  match nows with
  | [] => st
  | now :: rest =>
    let st := mkState (db st) now (faults st) (origin_log st) in
    run_calls lim client_id rest (snd (is_rate_limited lim client_id st))
  end.

(** The stored [tokens] field of a key. *)
Definition stored_tokens (k : string) (st : gstate) : option Q :=
  match db st !! k with
  | Some (RHash t _, _) => t
  | _ => None
  end.

(** The text [cache_response] stores for a body that decodes to [cs]:
    [content.decode() if content else ""]. *)
Definition stored_text (content : list byte) (cs : list Z) : list Z :=
  match content with [] => [] | _ => cs end.

(* ------------------------------------------------------------------ *)
(** ** Concrete collaborators for the worked examples *)

Definition ex_md5 (s : string) : string := s.
Definition ex_jwt (t : string) : jwt_result :=
  if String.eqb t "alice-token" then JwtOk [("sub", "alice")]
  else if String.eqb t "stale-token" then JwtExpired else JwtInvalid.
Definition ex_origin (r : request) : option response :=
  Some (mkResponse 200 [("content-type", "application/json")] (ascii_bytes "{}")).
Definition ex_local (r : request) : option (M response) := None.
Definition ex_settings : settings := mkSettings true 300 true 60 60.
Definition ex_get (path : string) (hs : headers) : request :=
  mkRequest "GET" path "" hs [] "203.0.113.7" None.
Definition ex_alice : headers := [("authorization", "Bearer alice-token")].
Definition ex_state : gstate := mkState ∅ 0 [] [].
Definition ex_ok_handler (r : request) : M response :=
  ret (mkResponse 200 [("content-type", "text/plain")] (ascii_bytes "ok")).
Definition ex_binary_handler (r : request) : M response :=
  ret (mkResponse 200 [("content-type", "application/octet-stream")] [Byte.xff; Byte.x00]).
Definition ex_lim60 : limiter := mkLimiter 60 (inject_Z 60 / inject_Z 60) 60.
Definition ex_lim0 : limiter := mkLimiter 0 (inject_Z 0 / inject_Z 60) 60.
Definition ex_cache : cache_mw := mkCacheMw 300 true.
Definition ex_notfound_handler (r : request) : M response :=
  ret (mkResponse 404 [("content-type", "text/plain")] (ascii_bytes "missing")).
Definition ex_down_origin (r : request) : option response := None.
Definition ex_text_response : response :=
  mkResponse 200 [("content-type", "text/plain")] (ascii_bytes "ok").
Definition ex_post (path : string) (hs : headers) : request :=
  mkRequest "POST" path "" hs [] "203.0.113.7" None.
Definition ex_empty_bucket_state : gstate :=
  mkState (<["rate_limit:ip:203.0.113.7" := (RHash (Some 0) (Some 0), Some 180)]> ∅)%Q 0 [] [].

(** The invariant of a bucket record: [0 <= tokens <= max_tokens] and a
    [last_refill] not later than the clock. *)
Definition bucket_ok (lim : limiter) (k : string) (st : gstate) : Prop :=
  match db st !! k with
  | Some (RHash t l, _) =>
    (forall x, t = Some x -> 0 <= x <= inject_Z (max_tokens lim))%Q /\
    (forall y, l = Some y -> y <= clock st)%Q
  | _ => True
  end.

(** Clock readings that never go backwards, starting from [prev]. *)
Fixpoint nondecreasing (prev : Q) (nows : list Q) : bool :=
  match nows with
  | [] => true
  | x :: t => Qle_bool prev x && nondecreasing x t
  end.

(** A bucket met by a burst of calls at the instant [now]: absent with
    the full allowance [m = max_tokens], or written at [now] holding [m]
    tokens, with no pending store fault. *)
Definition burst_bucket (lim : limiter) (k : string) (now : Q) (m : Z) (st : gstate) : Prop :=
  faults st = [] /\ (0 <= m <= max_tokens lim)%Z /\
  ((db st !! k = None /\ m = max_tokens lim) \/
   exists t, db st !! k = Some (RHash (Some t) (Some now),
                                Some (now + inject_Z (window_size lim * 3))%Q) /\
             (t == inject_Z m)%Q).

(* ================================================================== *)
(** * Properties *)

(** ** Worked pipelines on concrete requests *)

(** C1: the pipeline [main.py] builds runs auth outermost, then the rate
    limiter, then the cache, then logging; so a cache HIT still consumes a
    token.  After a first GET from alice stored a response, a second
    identical GET is served as a HIT without contacting the origin, yet
    alice's bucket goes from 59 to 58 tokens. *)
Lemma C1_cache_hit_consumes_token :
  let r := ex_get "/api/data" ex_alice in
  let st1 := snd (gateway ex_md5 ex_jwt ex_origin ex_local ex_settings r
                          (mkState ∅ 1000 [] [])) in
  let run := gateway ex_md5 ex_jwt ex_origin ex_local ex_settings r st1 in
  main_middleware ex_settings =
    inr [MwAuth; MwRateLimit (mkLimiter 60 (inject_Z 60 / inject_Z 60) 60);
         MwCache (mkCacheMw 300 true); MwLogging] /\
  (match fst run with
   | inr rs => hdr_get "X-Cache" (rs_headers rs) = Some "HIT"
   | inl _ => False
   end) /\
  origin_log (snd run) = origin_log st1 /\
  option_map Qred (stored_tokens "rate_limit:user:alice" st1) = Some 59%Q /\
  option_map Qred (stored_tokens "rate_limit:user:alice" (snd run)) = Some 58%Q.
Proof. vm_compute. repeat split; reflexivity. Qed.

(** C2 (counterexample): with [CACHE_ENABLED] false, [main.py] does not
    install the cache middleware, and a response carries no [X-Cache]
    header at all, rather than [X-Cache: DISABLED]. *)
Lemma C2_no_header_when_disabled :
  let s := mkSettings false 300 true 60 60 in
  match fst (gateway ex_md5 ex_jwt ex_origin ex_local s (ex_get "/api/data" ex_alice)
                     (mkState ∅ 1000 [] [])) with
  | inr rs => rs_status rs = 200%Z /\ hdr_get "X-Cache" (rs_headers rs) = None
  | inl _ => False
  end.
Proof. vm_compute. split; reflexivity. Qed.

(** C3 (counterexample): for an unauthenticated request the limiter's
    identity is the peer address, while the cache fingerprint uses the
    literal [anonymous]. *)
Lemma C3_identities_differ :
  let r := ex_get "/api/data" [] in
  _get_client_id r = "ip:203.0.113.7" /\ cache_identity r = "anonymous" /\
  _get_client_id r <> cache_identity r.
Proof. vm_compute. split; [reflexivity | split; [reflexivity | discriminate]]. Qed.

(** C5: [GET /health] skips auth and the limiter and does no cache
    lookup, but [cache_response] checks only the response, so the health
    reply is written to the cache under the request's fingerprint. *)
Lemma C5_health_response_written_to_cache :
  let r := ex_get "/health" [] in
  let run := gateway ex_md5 ex_jwt ex_origin ex_local ex_settings r (mkState ∅ 1000 [] []) in
  (match fst run with
   | inr rs => rs_status rs = 200%Z /\ rs_body rs = ascii_bytes (json_obj1 "status" "healthy")
   | inl _ => False
   end) /\
  origin_log (snd run) = [] /\
  db (snd run) !! "rate_limit:ip:203.0.113.7" = None /\
  exists e, db (snd run) !! _generate_cache_key ex_md5 r = Some (RStr e, Some 1300%Q) /\
            ce_status e = 200%Z.
Proof.
  vm_compute. split; [split; reflexivity|]. split; [reflexivity|]. split; [reflexivity|].
  eexists. split; reflexivity.
Qed.

(** C9 (counterexample): with 60 tokens per 60 s and the clock at
    100.5 s, the header is [int(101.5) + 1 = 102], not
    [ceil(101.5) + 1 = 103]. *)
Lemma C9_reset_is_truncated :
  let lim := mkLimiter 60 (inject_Z 60 / inject_Z 60) 60 in
  let st := mkState ∅ (201 # 2) [] [] in
  match fst (rate_limit_dispatch lim (fun _ => ret (mkResponse 200 [] [])) (ex_get "/api/data" []) st) with
  | inr rs =>
    hdr_get "X-RateLimit-Reset" (rs_headers rs) = Some "102" /\
    py_str_int (Qceiling (clock st + 1 / refill_rate lim) + 1) = "103"
  | inl _ => False
  end.
Proof. vm_compute. split; reflexivity. Qed.

(** ** Header lemmas *)

Lemma hdr_get_app (n : string) (l1 l2 : headers) :
  hdr_get n (app l1 l2) = match hdr_get n l1 with Some v => Some v | None => hdr_get n l2 end.
Proof.
  induction l1 as [|[k v] t IH]; simpl; [reflexivity|].
  destruct (String.eqb k (str_lower n)); [reflexivity | exact IH].
Qed.

Lemma hdr_get_absent (n : string) (hs : headers) :
  List.existsb (fun '(k', _) => String.eqb k' (str_lower n)) hs = false -> hdr_get n hs = None.
Proof.
  induction hs as [|[k v] t IH]; simpl; [reflexivity|].
  destruct (String.eqb k (str_lower n)); [discriminate | exact IH].
Qed.

Lemma hdr_set_found_get_same (k v : string) (hs : headers) (n : string) :
  k = str_lower n ->
  List.existsb (fun '(k', _) => String.eqb k' k) hs = true ->
  hdr_get n (hdr_set_found k v hs false) = Some v.
Proof.
  intros ->. induction hs as [|[k' v'] t IH]; simpl; [discriminate|].
  destruct (String.eqb k' (str_lower n)) eqn:E; simpl.
  - rewrite String.eqb_refl. reflexivity.
  - rewrite E. exact IH.
Qed.

Lemma hdr_get_set_same (n v : string) (hs : headers) :
  hdr_get n (hdr_set n v hs) = Some v.
Proof.
  unfold hdr_set.
  destruct (List.existsb (fun '(k', _) => String.eqb k' (str_lower n)) hs) eqn:E.
  - apply hdr_set_found_get_same; [reflexivity | exact E].
  - rewrite hdr_get_app, (hdr_get_absent n hs E). simpl.
    rewrite String.eqb_refl. reflexivity.
Qed.

Lemma hdr_set_found_get_other (k v : string) (hs : headers) (b : bool) (n : string) :
  k <> str_lower n -> hdr_get n (hdr_set_found k v hs b) = hdr_get n hs.
Proof.
  intros Hne. revert b. induction hs as [|[k' v'] t IH]; intros b; simpl; [reflexivity|].
  destruct (String.eqb k' k) eqn:E1.
  - apply String.eqb_eq in E1. subst k'.
    assert (E2 : String.eqb k (str_lower n) = false) by (apply String.eqb_neq; exact Hne).
    destruct b; simpl; rewrite ?E2; apply IH.
  - simpl. destruct (String.eqb k' (str_lower n)); [reflexivity | apply IH].
Qed.

Lemma hdr_get_set_other (n m v : string) (hs : headers) :
  str_lower m <> str_lower n -> hdr_get n (hdr_set m v hs) = hdr_get n hs.
Proof.
  intros Hne. unfold hdr_set.
  destruct (List.existsb _ hs).
  - apply hdr_set_found_get_other. exact Hne.
  - rewrite hdr_get_app. simpl.
    assert (E2 : String.eqb (str_lower m) (str_lower n) = false) by (apply String.eqb_neq; exact Hne).
    rewrite E2. destruct (hdr_get n hs); reflexivity.
Qed.

Lemma set_header_get_same (n v : string) (rs : response) :
  hdr_get n (rs_headers (set_header n v rs)) = Some v.
Proof. apply hdr_get_set_same. Qed.

Lemma set_header_get_other (n m v : string) (rs : response) :
  str_lower m <> str_lower n ->
  hdr_get n (rs_headers (set_header m v rs)) = hdr_get n (rs_headers rs).
Proof. apply hdr_get_set_other. Qed.

Lemma clean_headers_no_exact (k : string) (hs : headers) :
  gateway_injected k = true ->
  List.existsb (fun '(k', _) => String.eqb k' k) (clean_headers hs) = false.
Proof.
  intros Hk. induction hs as [|[k' v'] t IH]; simpl; [reflexivity|].
  destruct (gateway_injected k') eqn:E; simpl; [exact IH|].
  destruct (String.eqb k' k) eqn:E2; simpl; [|exact IH].
  apply String.eqb_eq in E2. subst. congruence.
Qed.

Lemma clean_headers_lower_absent (n : string) (hs : headers) :
  gateway_injected n = true ->
  hdr_get n (List.map (fun '(k, v) => (str_lower k, v)) (clean_headers hs)) = None.
Proof.
  intros Hn. induction hs as [|[k v] t IH]; simpl; [reflexivity|].
  destruct (gateway_injected k) eqn:E; simpl; [exact IH|].
  destruct (String.eqb (str_lower k) (str_lower n)) eqn:E2; [|exact IH].
  apply String.eqb_eq in E2. unfold gateway_injected in E, Hn.
  rewrite E2 in E. congruence.
Qed.

Lemma dict_set_absent (k v : string) (d : headers) :
  List.existsb (fun '(k', _) => String.eqb k' k) d = false -> dict_set k v d = app d [(k, v)].
Proof. intros E. unfold dict_set. rewrite E. reflexivity. Qed.

Lemma hit_headers_x_cache (content : list byte) (status : Z) (hs : headers) (ttl : string) :
  hdr_get "X-Cache"
    (rs_headers (mk_response content status
                   (dict_set "X-Cache-TTL" ttl (dict_set "X-Cache" "HIT" (clean_headers hs))) None))
  = Some "HIT".
Proof.
  rewrite (dict_set_absent "X-Cache") by (apply clean_headers_no_exact; reflexivity).
  rewrite dict_set_absent.
  2:{ rewrite List.existsb_app, (clean_headers_no_exact "X-Cache-TTL") by reflexivity. reflexivity. }
  unfold mk_response, init_headers. cbn [rs_headers].
  rewrite !List.map_app.
  match goal with |- hdr_get _ (if ?b then _ else _) = _ => destruct b end;
  rewrite !hdr_get_app, clean_headers_lower_absent by reflexivity; reflexivity.
Qed.

Lemma get_cached_response_state (md5_hex : string -> string) (r : request) (st : gstate) :
  snd (get_cached_response md5_hex r st) = st.
Proof.
  unfold get_cached_response. destruct (negb (should_cache_request r)); [reflexivity|].
  cbv [try_all bind redis_get redis_lookup ret raise].
  destruct (db st !! _generate_cache_key md5_hex r) as [[v [exp|]]|]; simpl;
    try destruct (Qlt_le_dec _ _); try destruct v; reflexivity.
Qed.

Lemma get_cached_response_hit (md5_hex : string -> string) (r : request) (st : gstate)
    (content : list byte) (status : Z) (hs : headers) (st' : gstate) :
  get_cached_response md5_hex r st = (inr (Some (content, status, hs)), st') ->
  exists hs0, hs = clean_headers hs0.
Proof.
  unfold get_cached_response. destruct (negb (should_cache_request r)); [discriminate|].
  cbv [try_all bind redis_get redis_lookup ret raise].
  destruct (db st !! _generate_cache_key md5_hex r) as [[v [exp|]]|]; simpl;
    try destruct (Qlt_le_dec _ _); try destruct v; simpl; try discriminate;
    intros H; inversion H; eauto.
Qed.

Lemma get_cached_response_no_raise (md5_hex : string -> string) (r : request) (st : gstate) :
  exists x, fst (get_cached_response md5_hex r st) = inr x.
Proof.
  unfold get_cached_response. destruct (negb (should_cache_request r)); [eexists; reflexivity|].
  cbv [try_all bind redis_get redis_lookup ret raise].
  destruct (db st !! _generate_cache_key md5_hex r) as [[v [exp|]]|]; simpl;
    try destruct (Qlt_le_dec _ _); try destruct v; simpl; eexists; reflexivity.
Qed.

(** C2 (amended): every response produced by the cache middleware
    carries [X-Cache]: [DISABLED] when the middleware is built with
    caching off, [HIT] or [MISS] otherwise.  [main.py] installs the
    middleware only when [CACHE_ENABLED] is set, and always with caching
    on, so [DISABLED] never occurs and with [CACHE_ENABLED] false no
    [X-Cache] header is injected. *)
Lemma C2_cache_layer_x_cache (md5_hex : string -> string) (c : cache_mw) (call_next : handler)
    (r : request) (st : gstate) (rs : response) (st' : gstate) (s : settings)
    (stack : list middleware) :
  (cache_dispatch md5_hex c call_next r st = (inr rs, st') ->
   (cache_enabled c = false -> hdr_get "X-Cache" (rs_headers rs) = Some "DISABLED") /\
   (cache_enabled c = true ->
    hdr_get "X-Cache" (rs_headers rs) = Some "HIT" \/
    hdr_get "X-Cache" (rs_headers rs) = Some "MISS")) /\
  (main_middleware s = inr stack ->
   (forall c', In (MwCache c') stack -> cache_enabled c' = true) /\
   (CACHE_ENABLED s = false -> forall c', ~ In (MwCache c') stack)).
Proof.
  split.
  - unfold cache_dispatch. intros H.
    destruct (cache_enabled c) eqn:Ec.
    + split; [discriminate|]. intros _. simpl in H.
      unfold bind at 1 in H.
      destruct (get_cached_response md5_hex r st) as [[e|[[[content status] hs]|]] st0] eqn:G;
        [discriminate| |].
      * left. destruct (get_cached_response_hit _ _ _ _ _ _ _ G) as [hs0 ->].
        unfold ret in H. inversion H; subst.
        apply hit_headers_x_cache.
      * right. unfold bind, time_now, ret in H.
        destruct (call_next r st0) as [[e|rs0] st1]; [discriminate|].
        destruct (cache_response md5_hex c r _ _ None _) as [[e|[]] st2]; [discriminate|].
        inversion H; subst.
        rewrite set_header_get_other by discriminate.
        apply set_header_get_same.
    + split; [|discriminate]. intros _. simpl in H. unfold bind, ret in H.
      destruct (call_next r st) as [[e|rs0] st1]; [discriminate|].
      inversion H; subst. apply set_header_get_same.
  - unfold main_middleware, add_middleware. intros H.
    destruct (CACHE_ENABLED s) eqn:Ecache, (RATE_LIMIT_ENABLED s);
      try destruct (new_rate_limit_mw _ _ _); inversion H; subst;
      (split; [intros c' Hin; simpl in Hin;
               repeat destruct Hin as [Hin|Hin]; try discriminate; try contradiction;
               inversion Hin; subst; unfold new_cache_mw; simpl; exact Ecache
              | intros Hf c' Hin; simpl in Hin;
                repeat destruct Hin as [Hin|Hin]; try discriminate; try contradiction;
                congruence]).
Qed.

(** ** Client identity *)

(** C3 (amended): the limiter and the cache agree on [user:{sub}] when
    the verified claim set has a non-empty [sub].  Otherwise the limiter
    falls back to [ip:{first X-Forwarded-For hop}] (non-empty header) or
    [ip:{peer}], while the cache fingerprint uses [anonymous] when there is
    no claim set or an empty one, and [user:{sub}] or [user:anonymous] when
    a non-empty claim set has an empty or missing [sub]. *)
Lemma C3_identity_agreement (r : request) :
  let ip := match hdr_get "X-Forwarded-For" (rq_headers r) with
            | Some f => if String.eqb f "" then "ip:" ++ rq_client_host r
                        else "ip:" ++ str_strip (split_first ","%char f)
            | None => "ip:" ++ rq_client_host r
            end in
  (forall u sub, rq_user r = Some u -> dict_get "sub" u = Some sub -> sub <> "" ->
     _get_client_id r = "user:" ++ sub /\ cache_identity r = "user:" ++ sub) /\
  (forall u, rq_user r = Some u -> u <> [] ->
     dict_get "sub" u = None \/ dict_get "sub" u = Some "" ->
     _get_client_id r = ip /\
     cache_identity r = "user:" ++ match dict_get "sub" u with Some s => s | None => "anonymous" end) /\
  (rq_user r = None \/ rq_user r = Some [] ->
     _get_client_id r = ip /\ cache_identity r = "anonymous").
Proof.
  intros ip. unfold _get_client_id, cache_identity. split; [|split].
  - intros u sub Hu Hs Hne. rewrite Hu, Hs.
    apply String.eqb_neq in Hne. rewrite Hne.
    destruct u as [|p u']; [discriminate|]. split; reflexivity.
  - intros u Hu Hne Hs. rewrite Hu.
    destruct u as [|p u']; [congruence|].
    destruct Hs as [Hs|Hs]; rewrite Hs; split; reflexivity.
  - intros [Hu|Hu]; rewrite Hu; split; reflexivity.
Qed.

(** ** Authentication *)

(** C8: outside [/health], the authenticator answers 401 "Missing or
    invalid Authorization header" unless the header starts with
    ["Bearer "]; otherwise the stripped token goes to [jwt.decode], whose
    expiry error gives 401 "Token expired", any other PyJWT error 401
    "Token invalid", any other exception 500 "Auth error: {message}", and
    whose payload is attached to the request before the inner handler
    runs. *)
Lemma C8_auth_partition (jwt_decode : string -> jwt_result) (call_next : handler)
    (r : request) (st : gstate) :
  rq_path r <> "/health" ->
  let res := auth_dispatch jwt_decode call_next r st in
  ((hdr_get "Authorization" (rq_headers r) = None \/
    exists a, hdr_get "Authorization" (rq_headers r) = Some a /\ str_startswith a "Bearer " = false) ->
   res = (inr (detail_response "Missing or invalid Authorization header" 401 []), st)) /\
  (forall a, hdr_get "Authorization" (rq_headers r) = Some a -> str_startswith a "Bearer " = true ->
   let token := str_strip (str_removeprefix a "Bearer ") in
   (jwt_decode token = JwtExpired -> res = (inr (detail_response "Token expired" 401 []), st)) /\
   (jwt_decode token = JwtInvalid -> res = (inr (detail_response "Token invalid" 401 []), st)) /\
   (forall msg, jwt_decode token = JwtCrash msg ->
      res = (inr (detail_response ("Auth error: " ++ msg) 500 []), st)) /\
   (forall payload, jwt_decode token = JwtOk payload ->
      res = call_next (set_user r payload) st /\ rq_user (set_user r payload) = Some payload)).
Proof.
  intros Hp res. unfold res, auth_dispatch.
  apply String.eqb_neq in Hp. rewrite Hp.
  split.
  - intros [Ha | [a [Ha Hb]]]; rewrite Ha; [reflexivity|].
    rewrite Hb, andb_false_r. reflexivity.
  - intros a Ha Hb. rewrite Ha, Hb.
    assert (Hne : String.eqb a "" = false).
    { destruct a; [discriminate | reflexivity]. }
    rewrite Hne. simpl.
    repeat split; intros; match goal with H : jwt_decode _ = _ |- _ => rewrite H end;
      reflexivity.
Qed.

(** ** The token bucket *)

Lemma bucket_update_range (lim : limiter) (now : Q) (t l : option Q) :
  (0 <= inject_Z (max_tokens lim))%Q -> (0 <= refill_rate lim)%Q ->
  (forall x, t = Some x -> 0 <= x <= inject_Z (max_tokens lim))%Q ->
  (forall y, l = Some y -> y <= now)%Q ->
  (0 <= snd (bucket_update lim now (t, l)) <= inject_Z (max_tokens lim))%Q.
Proof.
  intros Hm Hr Ht Hl. unfold bucket_update. cbn [fst snd].
  set (MX := inject_Z (max_tokens lim)) in *.
  set (t0 := match t with Some x => x | None => MX end).
  set (l0 := match l with Some y => y | None => now end).
  assert (T0 : (0 <= t0 <= MX)%Q) by (unfold t0; destruct t; [apply Ht; reflexivity | lra]).
  assert (L0 : (l0 <= now)%Q) by (unfold l0; destruct l; [apply Hl; reflexivity | lra]).
  assert (A : (0 <= (now - l0) * refill_rate lim)%Q) by (apply Qmult_le_0_compat; lra).
  unfold py_min.
  destruct (Qlt_le_dec (t0 + (now - l0) * refill_rate lim) MX) as [H1|H1];
    [destruct (Qlt_le_dec (t0 + (now - l0) * refill_rate lim) 1)
    | destruct (Qlt_le_dec MX 1)]; cbn [snd]; lra.
Qed.

Ltac unfold_monad :=
  cbv [bind ret raise try_all try_watch time_now next_fault redis_lookup redis_hmget
       redis_hset_expire set_db] in *.

(** Case analysis of one limiter attempt: pending fault, stored value,
    expiry, bucket arithmetic. *)
Ltac split_attempt lim st key :=
  destruct (faults st) as [|f fs] eqn:Ef; [|destruct f]; cbn -[bucket_update];
  destruct (db st !! key) as [[v e]|] eqn:Ed;
    try (destruct e as [exp|]; [destruct (Qlt_le_dec (clock st) exp)|]);
    try destruct v as [t l|ce]; cbn -[bucket_update];
  try match goal with
  | |- context [bucket_update lim ?n ?b] => destruct (bucket_update lim n b) as [lim' tok] eqn:Eb
  end; cbn -[bucket_update].

Lemma rl_attempt_frame (lim : limiter) (key : string) (now : Q) (ttl : Z) (st : gstate) :
  clock (snd (rl_attempt lim key now ttl st)) = clock st /\
  origin_log (snd (rl_attempt lim key now ttl st)) = origin_log st.
Proof.
  unfold rl_attempt. unfold_monad.
  split_attempt lim st key; auto.
Qed.

Lemma rl_attempt_ok (lim : limiter) (key : string) (ttl : Z) (st : gstate) :
  (0 <= inject_Z (max_tokens lim))%Q -> (0 <= refill_rate lim)%Q ->
  bucket_ok lim key st -> bucket_ok lim key (snd (rl_attempt lim key (clock st) ttl st)).
Proof.
  intros Hm Hr Hok. pose proof Hok as Hok0. unfold bucket_ok in Hok0.
  unfold rl_attempt. unfold_monad.
  split_attempt lim st key; try exact Hok; rewrite ?Ed in Hok0.
  all: unfold bucket_ok; cbn [db set_db clock].
  all: destruct (0 <? ttl)%Z; [rewrite lookup_insert_eq | rewrite lookup_delete_eq; exact I].
  all: split; [intros x Hx; injection Hx as <- | intros y Hy; injection Hy as <-; lra].
  all: match goal with
       | Eb : bucket_update _ _ (?a, ?b) = _ |- _ =>
         pose proof (bucket_update_range lim (clock st) a b Hm Hr) as R; rewrite Eb in R
       end.
  all: apply R; try (intros; discriminate); apply Hok0.
Qed.

Lemma rl_loop_frame (lim : limiter) (key : string) (now : Q) (ttl : Z) (left : nat) :
  forall attempt st,
  clock (snd (rl_loop lim key now ttl attempt left st)) = clock st /\
  origin_log (snd (rl_loop lim key now ttl attempt left st)) = origin_log st.
Proof.
  induction left as [|left IH]; intros attempt st; simpl; [auto|].
  cbv [try_watch bind ret].
  pose proof (rl_attempt_frame lim key now ttl st) as [F1 F2].
  destruct (rl_attempt lim key now ttl st) as [[e|x] st1]; simpl in *; [|auto].
  destruct e; simpl; auto.
  match goal with |- context [if ?b then _ else _] => destruct b end; simpl; [auto|].
  destruct (IH (S attempt) st1) as [G1 G2]. rewrite G1, G2. auto.
Qed.

Lemma rl_loop_ok (lim : limiter) (key : string) (ttl : Z) (left : nat) :
  (0 <= inject_Z (max_tokens lim))%Q -> (0 <= refill_rate lim)%Q ->
  forall attempt st, bucket_ok lim key st ->
  bucket_ok lim key (snd (rl_loop lim key (clock st) ttl attempt left st)).
Proof.
  intros Hm Hr. induction left as [|left IH]; intros attempt st Hok; simpl; [exact Hok|].
  cbv [try_watch bind ret].
  pose proof (rl_attempt_frame lim key (clock st) ttl st) as [F1 _].
  pose proof (rl_attempt_ok lim key ttl st Hm Hr Hok) as Hok1.
  destruct (rl_attempt lim key (clock st) ttl st) as [[e|x] st1]; simpl in *; [|exact Hok1].
  destruct e; simpl; try exact Hok1.
  match goal with |- context [if ?b then _ else _] => destruct b end; simpl; [exact Hok1|].
  rewrite <- F1. apply IH. exact Hok1.
Qed.

Lemma rl_loop_not_none (lim : limiter) (key : string) (now : Q) (ttl : Z) (left : nat) :
  forall attempt st, (attempt + left = max_retries)%nat -> (0 < left)%nat ->
  fst (rl_loop lim key now ttl attempt left st) <> inr None.
Proof.
  induction left as [|left IH]; intros attempt st Hs Hl; [lia|]. simpl.
  cbv [try_watch bind ret].
  destruct (rl_attempt lim key now ttl st) as [[e|x] st1]; simpl; [|discriminate].
  destruct e; simpl; try discriminate.
  match goal with |- context [if ?b then _ else _] => destruct b eqn:E end; simpl; [discriminate|].
  apply Nat.eqb_neq in E. unfold max_retries in *.
  apply IH; lia.
Qed.

Lemma is_rate_limited_some (lim : limiter) (client_id : string) (st : gstate) :
  exists x, fst (is_rate_limited lim client_id st) = inr (Some x).
Proof.
  unfold is_rate_limited. cbv [bind time_now try_all ret].
  pose proof (rl_loop_not_none lim ("rate_limit:" ++ client_id) (clock st)
                (window_size lim * 3) max_retries 0 st eq_refl ltac:(unfold max_retries; lia)) as H.
  destruct (rl_loop _ _ _ _ 0 max_retries st) as [[e|[x|]] st1]; simpl in *;
    [eexists; reflexivity | eexists; reflexivity | congruence].
Qed.

Lemma is_rate_limited_frame (lim : limiter) (client_id : string) (st : gstate) :
  clock (snd (is_rate_limited lim client_id st)) = clock st /\
  origin_log (snd (is_rate_limited lim client_id st)) = origin_log st.
Proof.
  unfold is_rate_limited. cbv [bind time_now try_all ret].
  pose proof (rl_loop_frame lim ("rate_limit:" ++ client_id) (clock st)
                (window_size lim * 3) max_retries 0 st) as [F1 F2].
  destruct (rl_loop _ _ _ _ 0 max_retries st) as [[e|x] st1]; simpl in *; auto.
Qed.

Lemma is_rate_limited_ok (lim : limiter) (client_id : string) (st : gstate) :
  (0 <= inject_Z (max_tokens lim))%Q -> (0 <= refill_rate lim)%Q ->
  bucket_ok lim ("rate_limit:" ++ client_id) st ->
  bucket_ok lim ("rate_limit:" ++ client_id) (snd (is_rate_limited lim client_id st)).
Proof.
  intros Hm Hr Hok. unfold is_rate_limited. cbv [bind time_now try_all ret].
  pose proof (rl_loop_ok lim ("rate_limit:" ++ client_id) (window_size lim * 3) max_retries
                Hm Hr 0 st Hok) as H.
  destruct (rl_loop _ _ _ _ 0 max_retries st) as [[e|x] st1]; simpl in *; auto.
Qed.

Lemma bucket_ok_later (lim : limiter) (k : string) (st : gstate) (now : Q) (fs : list fault)
    (log : list request) :
  bucket_ok lim k st -> (clock st <= now)%Q -> bucket_ok lim k (mkState (db st) now fs log).
Proof.
  unfold bucket_ok. simpl. intros Hok Hle.
  destruct (db st !! k) as [[[t l|ce] e]|]; auto.
  destruct Hok as [Ht Hl]. split; [exact Ht|]. intros y Hy. specialize (Hl y Hy). lra.
Qed.

Lemma new_limiter_bounds (per w : Z) (lim : limiter) :
  new_limiter per w = inr lim -> (0 <= per)%Z -> (0 < w)%Z ->
  (0 <= inject_Z (max_tokens lim))%Q /\ (0 <= refill_rate lim)%Q.
Proof.
  unfold new_limiter. intros H Hp Hw.
  destruct (w =? 0)%Z; [discriminate|]. injection H as <-. simpl.
  assert (P : (0 <= inject_Z per)%Q) by (unfold Qle; simpl; lia).
  assert (W : (0 <= inject_Z w)%Q) by (unfold Qle; simpl; lia).
  split; [exact P|]. unfold Qdiv. apply Qmult_le_0_compat; [exact P|].
  apply Qinv_le_0_compat. exact W.
Qed.

(** C6 (counterexample): with a clock that goes back from 10 s to 5 s,
    the refill term is negative and the limiter writes [tokens = -5]. *)
Lemma C6_negative_tokens_on_clock_skew :
  match new_limiter 1 1 with
  | inr lim =>
    match stored_tokens "rate_limit:c" (run_calls lim "c" [10; 5]%Q (mkState ∅ 0 [] [])) with
    | Some x => (x < 0)%Q
    | None => False
    end
  | inl _ => False
  end.
Proof. vm_compute. reflexivity. Qed.

(** C6 (amended): for a limiter built with [max_tokens >= 0] and a
    positive window, starting from a valid bucket, every sequence of calls
    whose clock values never go backwards leaves [tokens] in storage in
    [[0, max_tokens]]. *)
Lemma C6_tokens_in_range (per w : Z) (lim : limiter) (client_id : string) (nows : list Q)
    (st : gstate) :
  new_limiter per w = inr lim -> (0 <= per)%Z -> (0 < w)%Z ->
  bucket_ok lim ("rate_limit:" ++ client_id) st ->
  nondecreasing (clock st) nows = true ->
  bucket_ok lim ("rate_limit:" ++ client_id) (run_calls lim client_id nows st) /\
  (forall x, stored_tokens ("rate_limit:" ++ client_id) (run_calls lim client_id nows st) = Some x ->
     (0 <= x <= inject_Z (max_tokens lim))%Q).
Proof.
  intros Hl Hp Hw Hok Hn.
  destruct (new_limiter_bounds per w lim Hl Hp Hw) as [Hm Hr].
  assert (Inv : bucket_ok lim ("rate_limit:" ++ client_id) (run_calls lim client_id nows st)).
  { revert st Hok Hn. induction nows as [|now rest IH]; intros st Hok Hn; simpl; [exact Hok|].
    simpl in Hn. apply andb_true_iff in Hn as [H1 H2]. apply Qle_bool_iff in H1.
    set (st0 := mkState (db st) now (faults st) (origin_log st)).
    assert (Hok0 : bucket_ok lim ("rate_limit:" ++ client_id) st0)
      by (apply bucket_ok_later; assumption).
    pose proof (is_rate_limited_ok lim client_id st0 Hm Hr Hok0) as Hok1.
    pose proof (is_rate_limited_frame lim client_id st0) as [F1 _].
    apply IH; [exact Hok1|]. rewrite F1. exact H2. }
  split; [exact Inv|].
  intros x Hx. unfold bucket_ok in Inv. unfold stored_tokens in Hx.
  destruct (db (run_calls lim client_id nows st) !! ("rate_limit:" ++ client_id))
    as [[[t l|ce] e]|]; try discriminate.
  apply (proj1 Inv). exact Hx.
Qed.

(** ** Zero capacity *)

(** C4: with [max_tokens = 0] the limiter itself denies with
    [remaining = 0], but the middleware then computes [1.0 / refill_rate]
    with [refill_rate = 0] and raises [ZeroDivisionError] on every
    non-[/health] request, instead of answering 429. *)
Lemma C4_zero_capacity_divides_by_zero (w : Z) (lim : limiter) (call_next : handler)
    (r : request) (st : gstate) :
  new_limiter 0 w = inr lim -> rq_path r <> "/health" ->
  fst (rate_limit_dispatch lim call_next r st) = inl ZeroDivisionError /\
  (faults st = [] -> db st !! ("rate_limit:" ++ _get_client_id r) = None ->
   fst (is_rate_limited lim (_get_client_id r) st) = inr (Some (true, 0%Z))).
Proof.
  unfold new_limiter. intros Hl Hp.
  destruct (w =? 0)%Z eqn:Hw; [discriminate|]. injection Hl as <-.
  split.
  - unfold rate_limit_dispatch. apply String.eqb_neq in Hp. rewrite Hp.
    pose proof (is_rate_limited_some (mkLimiter 0 (inject_Z 0 / inject_Z w) w)
                  (_get_client_id r) st) as [[l rem] Hs].
    cbv [bind time_now py_div raise ret].
    destruct (is_rate_limited _ _ st) as [res st1]. simpl in Hs. subst res.
    destruct w; reflexivity.
  - intros Hf Hd. unfold is_rate_limited, max_retries. simpl rl_loop. unfold rl_attempt. unfold_monad.
    rewrite Hf. cbn -[bucket_update]. rewrite Hd. cbn -[bucket_update].
    unfold bucket_update, py_min. cbn [fst snd max_tokens refill_rate].
    destruct (Qlt_le_dec (inject_Z 0 + (clock st - clock st) * (inject_Z 0 / inject_Z w))
                         (inject_Z 0)) as [C|_].
    + exfalso. unfold Qdiv in C. rewrite Qmult_0_l, Qmult_0_r in C. simpl in C. lra.
    + reflexivity.
Qed.

(** ** Retries and fail-open *)

(** One step of the symbolic run of the limiter: reuse a case already
    split, or split on the next stored value, expiry test or bucket
    arithmetic. *)
Ltac limiter_step :=
  match goal with
  | Ed : db ?s !! ?k = _ |- context [db ?s !! ?k] => rewrite Ed
  | Eq : Qlt_le_dec ?a ?b = _ |- context [Qlt_le_dec ?a ?b] => rewrite Eq
  | Eb : bucket_update ?a ?b ?c = _ |- context [bucket_update ?a ?b ?c] => rewrite Eb
  | |- context [bucket_update ?a ?b ?c] =>
    let Eb := fresh "Eb" in destruct (bucket_update a b c) eqn:Eb
  | |- context [db ?s !! ?k] =>
    let Ed := fresh "Ed" in destruct (db s !! k) as [[? [?|]]|] eqn:Ed
  | |- context [Qlt_le_dec ?a ?b] =>
    let Eq := fresh "Eq" in destruct (Qlt_le_dec a b) eqn:Eq
  | |- context [match ?v with RHash _ _ => _ | RStr _ => _ end] => is_var v; destruct v
  end; cbn -[bucket_update].

Ltac run_limiter Hf :=
  unfold is_rate_limited, max_retries; simpl rl_loop; unfold rl_attempt; unfold_monad;
  rewrite ?Hf; cbn -[bucket_update]; repeat limiter_step.

(** C7: a conflicting EXEC is retried, three attempts in all; after the
    third conflict, and on a store error at any attempt, the limiter fails
    open with [(false, max_tokens)] and leaves the store as it was.  Fewer
    than three conflicts followed by a clean attempt give the result of a
    clean first attempt. *)
Lemma C7_retry_then_fail_open (lim : limiter) (client_id : string) (st : gstate) :
  (forall fs, faults st = ([FConflict; FConflict; FConflict] ++ fs)%list ->
     fst (is_rate_limited lim client_id st) = inr (Some (false, max_tokens lim)) /\
     db (snd (is_rate_limited lim client_id st)) = db st) /\
  (forall k fs, (k < max_retries)%nat -> faults st = (repeat FConflict k ++ FError :: fs)%list ->
     fst (is_rate_limited lim client_id st) = inr (Some (false, max_tokens lim)) /\
     db (snd (is_rate_limited lim client_id st)) = db st) /\
  (forall k, (k < max_retries)%nat -> faults st = repeat FConflict k ->
     fst (is_rate_limited lim client_id st) =
       fst (is_rate_limited lim client_id (mkState (db st) (clock st) [] (origin_log st))) /\
     db (snd (is_rate_limited lim client_id st)) =
       db (snd (is_rate_limited lim client_id (mkState (db st) (clock st) [] (origin_log st))))).
Proof.
  split; [|split].
  - intros fs Hf. run_limiter Hf; auto.
  - intros k fs Hk Hf. unfold max_retries in Hk.
    destruct k as [|[|[|k]]]; [| | |lia]; simpl in Hf;
      run_limiter Hf; auto.
  - intros k Hk Hf. unfold max_retries in Hk.
    destruct k as [|[|[|k]]]; [| | |lia]; simpl in Hf;
      run_limiter Hf; auto.
Qed.

(** ** Rate-limit headers *)

Lemma str_lower_ne_limit_remaining :
  str_lower "X-RateLimit-Limit" <> str_lower "X-RateLimit-Remaining".
Proof. vm_compute. discriminate. Qed.

Lemma str_lower_ne_limit_reset :
  str_lower "X-RateLimit-Limit" <> str_lower "X-RateLimit-Reset".
Proof. vm_compute. discriminate. Qed.

Lemma str_lower_ne_remaining_reset :
  str_lower "X-RateLimit-Remaining" <> str_lower "X-RateLimit-Reset".
Proof. vm_compute. discriminate. Qed.

(** C9 (amended): on a non-[/health] request that the middleware answers
    without raising (which needs [refill_rate] not zero), whether the
    request is admitted or denied, the response carries
    [X-RateLimit-Limit = max_tokens], [X-RateLimit-Remaining] equal to the
    [remaining] the limiter returned, and
    [X-RateLimit-Reset = int(now + 1/refill_rate) + 1], where [int]
    truncates toward zero. *)
Lemma C9_rate_limit_headers (lim : limiter) (call_next : handler) (r : request) (st : gstate)
    (rs : response) (st' : gstate) :
  rq_path r <> "/health" -> ~ (refill_rate lim == 0)%Q ->
  rate_limit_dispatch lim call_next r st = (inr rs, st') ->
  exists limited remaining st1,
    is_rate_limited lim (_get_client_id r) st = (inr (Some (limited, remaining)), st1) /\
    hdr_get "X-RateLimit-Limit" (rs_headers rs) = Some (py_str_int (max_tokens lim)) /\
    hdr_get "X-RateLimit-Remaining" (rs_headers rs) = Some (py_str_int remaining) /\
    hdr_get "X-RateLimit-Reset" (rs_headers rs) =
      Some (py_str_int (py_int (clock st + 1 / refill_rate lim) + 1)).
Proof.
  intros Hp Hr Hd. unfold rate_limit_dispatch in Hd.
  apply String.eqb_neq in Hp. rewrite Hp in Hd.
  cbv [bind time_now py_div raise ret] in Hd.
  pose proof (is_rate_limited_some lim (_get_client_id r) st) as [[l rem] Hs].
  pose proof (is_rate_limited_frame lim (_get_client_id r) st) as [F1 _].
  destruct (is_rate_limited lim (_get_client_id r) st) as [res st1] eqn:Ei.
  simpl in Hs, F1. subst res.
  exists l, rem, st1. split; [reflexivity|].
  destruct (Qeq_bool (refill_rate lim) 0) eqn:Ez.
  { apply Qeq_bool_eq in Ez. contradiction. }
  rewrite F1 in Hd. destruct l.
  - injection Hd as <- _. cbn. repeat split; reflexivity.
  - destruct (call_next r st1) as [[e|rs0] st2]; [discriminate|].
    injection Hd as <- _. simpl fold_left.
    rewrite !set_header_get_other, set_header_get_same by
      first [exact str_lower_ne_limit_reset | exact str_lower_ne_limit_remaining
            | exact str_lower_ne_remaining_reset
            | intros H; symmetry in H; revert H; first [exact str_lower_ne_limit_reset
                | exact str_lower_ne_limit_remaining | exact str_lower_ne_remaining_reset]].
    rewrite set_header_get_other, set_header_get_same by
      (intros H; symmetry in H; revert H; first [exact str_lower_ne_limit_reset
                | exact str_lower_ne_limit_remaining | exact str_lower_ne_remaining_reset]).
    rewrite set_header_get_same.
    repeat split; reflexivity.
Qed.

(** ** Bodies that are not UTF-8 *)

Lemma cache_write_undecodable (key : string) (ttl : Z) (rs : response) (content : list byte)
    (st : gstate) :
  utf8_decode content = None -> cache_write key ttl rs content st = (inl UnicodeDecodeError, st).
Proof.
  intros Hu. unfold cache_write. cbv [bind raise].
  destruct content as [|b bs]; [discriminate|]. rewrite Hu. reflexivity.
Qed.

(** C10: a body that is not valid UTF-8 makes the cache write raise while
    decoding; [cache_response] swallows the error and leaves the store as
    it was.  Through the middleware, on a MISS the client gets the origin's
    body and status, and the store after the request is the one the inner
    handler left: nothing is cached for the fingerprint. *)
Lemma C10_undecodable_body_not_cached (md5_hex : string -> string) (c : cache_mw)
    (call_next : handler) (r : request) (st : gstate) (rs0 : response) (st1 : gstate) :
  cache_enabled c = true ->
  fst (get_cached_response md5_hex r st) = inr None ->
  call_next r st = (inr rs0, st1) ->
  utf8_decode (rs_body rs0) = None ->
  (forall rs content ttl st2, utf8_decode content = None ->
     should_cache_response rs = true ->
     fst (cache_write (_generate_cache_key md5_hex r) ttl rs content st2) = inl UnicodeDecodeError /\
     cache_response md5_hex c r rs content None st2 = (inr tt, st2)) /\
  exists rs, cache_dispatch md5_hex c call_next r st = (inr rs, st1) /\
    rs_body rs = rs_body rs0 /\ rs_status rs = rs_status rs0.
Proof.
  intros He Hg Hc Hu.
  assert (Hcr : forall rs content ttl st2, utf8_decode content = None ->
     cache_response md5_hex c r rs content ttl st2 = (inr tt, st2)).
  { intros rs content ttl st2 Hu2. unfold cache_response.
    destruct (negb (should_cache_response rs)); [reflexivity|].
    cbv [try_all]. rewrite (cache_write_undecodable _ _ rs content st2 Hu2). reflexivity. }
  split.
  - intros rs content ttl st2 Hu2 Hs. split.
    + rewrite (cache_write_undecodable _ _ rs content st2 Hu2). reflexivity.
    + apply Hcr. exact Hu2.
  - unfold cache_dispatch. rewrite He. cbn [negb]. cbv [bind time_now ret].
    pose proof (get_cached_response_state md5_hex r st) as Hs.
    destruct (get_cached_response md5_hex r st) as [x stA]. simpl in Hg, Hs. subst x stA.
    rewrite Hc. rewrite Hcr by exact Hu.
    eexists. split; [reflexivity|]. split; reflexivity.
Qed.

(** ** Instances of the properties on concrete inputs *)

Lemma C8_auth_partition_witness :
  (rq_path (ex_get "/api/data" []) <> "/health") /\
  auth_dispatch ex_jwt ex_ok_handler (ex_get "/api/data" []) ex_state =
    (inr (detail_response "Missing or invalid Authorization header" 401 []), ex_state).
Proof.
  split; [discriminate|].
  apply (proj1 (C8_auth_partition ex_jwt ex_ok_handler (ex_get "/api/data" []) ex_state
                  ltac:(discriminate))).
  left. reflexivity.
Defined.

Lemma C4_zero_capacity_divides_by_zero_witness :
  new_limiter 0 60 = inr ex_lim0 /\
  fst (rate_limit_dispatch ex_lim0 ex_ok_handler (ex_get "/api/data" []) ex_state) =
    inl ZeroDivisionError.
Proof.
  split; [reflexivity|].
  apply (proj1 (C4_zero_capacity_divides_by_zero 60 ex_lim0 ex_ok_handler
                  (ex_get "/api/data" []) ex_state eq_refl ltac:(discriminate))).
Defined.

Lemma C6_tokens_in_range_witness :
  new_limiter 60 60 = inr ex_lim60 /\ nondecreasing 0 [10; 20; 20; 35]%Q = true /\
  (forall x, stored_tokens "rate_limit:c" (run_calls ex_lim60 "c" [10; 20; 20; 35]%Q ex_state) =
     Some x -> (0 <= x <= inject_Z (max_tokens ex_lim60))%Q).
Proof.
  split; [reflexivity|]. split; [reflexivity|].
  apply (proj2 (C6_tokens_in_range 60 60 ex_lim60 "c" [10; 20; 20; 35]%Q ex_state
                  eq_refl ltac:(lia) ltac:(lia) ltac:(vm_compute; exact I) eq_refl)).
Defined.

Lemma C9_rate_limit_headers_witness :
  exists rs st',
    rate_limit_dispatch ex_lim60 ex_ok_handler (ex_get "/api/data" []) ex_state = (inr rs, st') /\
    hdr_get "X-RateLimit-Reset" (rs_headers rs) =
      Some (py_str_int (py_int (clock ex_state + 1 / refill_rate ex_lim60) + 1)).
Proof.
  destruct (rate_limit_dispatch ex_lim60 ex_ok_handler (ex_get "/api/data" []) ex_state)
    as [[e|rs] st'] eqn:E; [vm_compute in E; discriminate E|].
  exists rs, st'. split; [reflexivity|].
  destruct (C9_rate_limit_headers ex_lim60 ex_ok_handler (ex_get "/api/data" []) ex_state rs st'
              ltac:(discriminate) ltac:(intro H; vm_compute in H; discriminate H) E)
    as (l & rem & st1 & _ & _ & _ & H).
  exact H.
Defined.

Lemma C10_undecodable_body_not_cached_witness :
  exists rs,
    cache_dispatch ex_md5 ex_cache ex_binary_handler (ex_get "/img" []) ex_state = (inr rs, ex_state) /\
    rs_body rs = [Byte.xff; Byte.x00].
Proof.
  destruct (C10_undecodable_body_not_cached ex_md5 ex_cache ex_binary_handler (ex_get "/img" [])
              ex_state (mkResponse 200 [("content-type", "application/octet-stream")]
                          [Byte.xff; Byte.x00]) ex_state
              eq_refl ltac:(vm_compute; reflexivity) eq_refl ltac:(vm_compute; reflexivity))
    as [_ (rs & H1 & H2 & _)].
  exists rs. split; assumption.
Defined.

(* ================================================================== *)
(** * Further properties of the code *)

(** ** UTF-8: [content.decode()] followed by [str.encode()] *)

Lemma bval_range (b : byte) : (0 <= bval b <= 255)%Z.
Proof. destruct b; vm_compute; split; discriminate. Qed.

Lemma byte_of_bval (b : byte) : byte_of (bval b) = b.
Proof. unfold byte_of, bval. rewrite N2Z.id, Byte.of_to_N. reflexivity. Qed.

Lemma byte_of_eq (z : Z) (b : byte) : z = bval b -> byte_of z = b.
Proof. intros ->. apply byte_of_bval. Qed.

Lemma cont_range (b : byte) (lo hi : Z) : cont b lo hi = true -> (lo <= bval b <= hi)%Z.
Proof. unfold cont. intros H. apply andb_true_iff in H as [H1 H2]. lia. Qed.

Lemma utf8_roundtrip_n (n : nat) :
  forall bs cs, (length bs <= n)%nat -> utf8_decode bs = Some cs -> utf8_encode cs = bs.
Proof.
  induction n as [|n IH]; intros bs cs Hl Hd.
  { destruct bs; [injection Hd as <-; reflexivity | simpl in Hl; lia]. }
  destruct bs as [|b0 r0]; [injection Hd as <-; reflexivity|].
  simpl in Hl. pose proof (bval_range b0) as R0. cbn [utf8_decode] in Hd.
  destruct (bval b0 <? 128)%Z eqn:E0.
  { destruct (utf8_decode r0) as [cs0|] eqn:Er; [|discriminate].
    injection Hd as <-. cbn [utf8_encode flat_map]. fold (utf8_encode cs0).
    rewrite (IH r0 cs0 ltac:(lia) Er). unfold utf8_encode_char.
    rewrite E0. cbn. rewrite byte_of_bval. reflexivity. }
  destruct ((194 <=? bval b0)%Z && (bval b0 <=? 223)%Z) eqn:E1.
  { destruct r0 as [|b1 r1]; [discriminate|].
    destruct (cont b1 128 191) eqn:C1; [|discriminate].
    apply cont_range in C1. apply andb_true_iff in E1 as [E1a E1b].
    destruct (utf8_decode r1) as [cs0|] eqn:Er; [|discriminate].
    injection Hd as <-. cbn [utf8_encode flat_map]. fold (utf8_encode cs0).
    simpl in Hl. rewrite (IH r1 cs0 ltac:(lia) Er). unfold utf8_encode_char.
    set (c := ((bval b0 - 192) * 64 + (bval b1 - 128))%Z).
    replace (c <? 128)%Z with false by (symmetry; apply Z.ltb_ge; unfold c; lia).
    replace (c <? 2048)%Z with true by (symmetry; apply Z.ltb_lt; unfold c; lia).
    cbn [app].
    rewrite (byte_of_eq (192 + c / 64) b0), (byte_of_eq (128 + c mod 64) b1)
      by (unfold c; Z.div_mod_to_equations; lia).
    reflexivity. }
  destruct ((224 <=? bval b0)%Z && (bval b0 <=? 239)%Z) eqn:E2.
  { destruct r0 as [|b1 [|b2 r2]]; try discriminate.
    apply andb_true_iff in E2 as [E2a E2b].
    destruct (cont b1 _ _ && cont b2 128 191) eqn:C; [|discriminate].
    apply andb_true_iff in C as [C1 C2]. apply cont_range in C1, C2.
    destruct (utf8_decode r2) as [cs0|] eqn:Er; [|discriminate].
    injection Hd as <-. cbn [utf8_encode flat_map]. fold (utf8_encode cs0).
    simpl in Hl. rewrite (IH r2 cs0 ltac:(lia) Er). unfold utf8_encode_char.
    assert (L1 : (128 <= bval b1)%Z) by (destruct (bval b0 =? 224)%Z; lia).
    assert (L2 : (bval b1 <= 191)%Z) by (destruct (bval b0 =? 237)%Z; lia).
    assert (L3 : (bval b0 = 224 -> 160 <= bval b1)%Z)
      by (intros Hz; rewrite Hz in C1; simpl in C1; lia).
    set (c := ((bval b0 - 224) * 4096 + (bval b1 - 128) * 64 + (bval b2 - 128))%Z).
    replace (c <? 128)%Z with false by (symmetry; apply Z.ltb_ge; unfold c; lia).
    replace (c <? 2048)%Z with false
      by (symmetry; apply Z.ltb_ge; unfold c; destruct (Z.eq_dec (bval b0) 224%Z); lia).
    replace (c <? 65536)%Z with true by (symmetry; apply Z.ltb_lt; unfold c; lia).
    cbn [app].
    rewrite (byte_of_eq (224 + c / 4096) b0), (byte_of_eq (128 + (c / 64) mod 64) b1),
      (byte_of_eq (128 + c mod 64) b2) by (unfold c; Z.div_mod_to_equations; lia).
    reflexivity. }
  destruct ((240 <=? bval b0)%Z && (bval b0 <=? 244)%Z) eqn:E3; [|discriminate].
  destruct r0 as [|b1 [|b2 [|b3 r3]]]; try discriminate.
  apply andb_true_iff in E3 as [E3a E3b].
  destruct (cont b1 _ _ && cont b2 128 191 && cont b3 128 191) eqn:C; [|discriminate].
  apply andb_true_iff in C as [C C3]. apply andb_true_iff in C as [C1 C2].
  apply cont_range in C1, C2, C3.
  destruct (utf8_decode r3) as [cs0|] eqn:Er; [|discriminate].
  injection Hd as <-. cbn [utf8_encode flat_map]. fold (utf8_encode cs0).
  simpl in Hl. rewrite (IH r3 cs0 ltac:(lia) Er). unfold utf8_encode_char.
  assert (L1 : (128 <= bval b1)%Z) by (destruct (bval b0 =? 240)%Z; lia).
  assert (L2 : (bval b1 <= 191)%Z) by (destruct (bval b0 =? 244)%Z; lia).
  assert (L3 : (bval b0 = 240 -> 144 <= bval b1)%Z)
    by (intros Hz; rewrite Hz in C1; simpl in C1; lia).
  set (c := ((bval b0 - 240) * 262144 + (bval b1 - 128) * 4096
             + (bval b2 - 128) * 64 + (bval b3 - 128))%Z).
  replace (c <? 128)%Z with false by (symmetry; apply Z.ltb_ge; unfold c; lia).
  replace (c <? 2048)%Z with false by (symmetry; apply Z.ltb_ge; unfold c; lia).
  replace (c <? 65536)%Z with false
    by (symmetry; apply Z.ltb_ge; unfold c; destruct (Z.eq_dec (bval b0) 240%Z); lia).
  cbn [app].
  rewrite (byte_of_eq (240 + c / 262144) b0), (byte_of_eq (128 + (c / 4096) mod 64) b1),
    (byte_of_eq (128 + (c / 64) mod 64) b2), (byte_of_eq (128 + c mod 64) b3)
    by (unfold c; Z.div_mod_to_equations; lia).
  reflexivity.
Qed.

Lemma utf8_roundtrip (bs : list byte) (cs : list Z) :
  utf8_decode bs = Some cs -> utf8_encode cs = bs.
Proof. apply (utf8_roundtrip_n (length bs)). lia. Qed.

(** ** [ResponseCache]: storing and reading back *)

Lemma clean_headers_idem (hs : headers) : clean_headers (clean_headers hs) = clean_headers hs.
Proof.
  induction hs as [|[k v] t IH]; simpl; [reflexivity|].
  destruct (gateway_injected k) eqn:E; simpl; [exact IH|]. rewrite E. simpl. rewrite IH. reflexivity.
Qed.

Lemma stored_text_encode (content : list byte) (cs : list Z) :
  utf8_decode content = Some cs -> utf8_encode (stored_text content cs) = content.
Proof.
  intros H. destruct content as [|b bs]; [reflexivity|]. apply utf8_roundtrip. exact H.
Qed.

Lemma cache_response_stores (md5_hex : string -> string) (c : cache_mw) (r : request)
    (rs : response) (content : list byte) (cs : list Z) (st : gstate) :
  should_cache_response rs = true -> utf8_decode content = Some cs -> (0 < default_ttl c)%Z ->
  cache_response md5_hex c r rs content None st =
    (inr tt, set_db st (<[_generate_cache_key md5_hex r :=
                           (RStr (mkEntry (stored_text content cs) (rs_status rs)
                                          (clean_headers (rs_headers rs)) (clock st)),
                            Some (clock st + inject_Z (default_ttl c))%Q)]> (db st))).
Proof.
  intros Hs Hu Ht. unfold cache_response. rewrite Hs. cbn [negb].
  unfold cache_write. cbv [try_all bind time_now ret raise redis_setex z_or].
  destruct content as [|b bs].
  - injection Hu as <-. apply Z.ltb_lt in Ht. rewrite Ht. reflexivity.
  - rewrite Hu. apply Z.ltb_lt in Ht. rewrite Ht. reflexivity.
Qed.

(** A response that [cache_response] stores is read back by
    [get_cached_response] for the same request, while the entry is live:
    the body bytes, the status, and the headers without the gateway's own
    [X-Cache], [X-Process-Time] and [X-Cache-TTL]. *)
Lemma cache_write_then_read (md5_hex : string -> string) (c : cache_mw) (r : request)
    (rs : response) (content : list byte) (cs : list Z) (st st2 : gstate) :
  should_cache_request r = true -> should_cache_response rs = true ->
  utf8_decode content = Some cs -> (0 < default_ttl c)%Z ->
  db st2 = db (snd (cache_response md5_hex c r rs content None st)) ->
  (clock st2 < clock st + inject_Z (default_ttl c))%Q ->
  get_cached_response md5_hex r st2 =
    (inr (Some (content, rs_status rs, clean_headers (rs_headers rs))), st2).
Proof.
  intros Hq Hs Hu Ht Hdb Hc.
  rewrite (cache_response_stores md5_hex c r rs content cs st Hs Hu Ht) in Hdb. simpl in Hdb.
  unfold get_cached_response. rewrite Hq. cbn [negb].
  cbv [try_all bind redis_get redis_lookup ret]. rewrite Hdb, lookup_insert_eq.
  destruct (Qlt_le_dec (clock st2) _) as [_|C]; [|lra]. cbn [ce_content ce_status ce_headers].
  rewrite (stored_text_encode content cs Hu), clean_headers_idem. reflexivity.
Qed.

(** Once the ttl has run out, the stored entry is no longer served:
    [get_cached_response] reports a MISS. *)
Lemma cache_entry_expires (md5_hex : string -> string) (c : cache_mw) (r : request)
    (rs : response) (content : list byte) (cs : list Z) (st st2 : gstate) :
  should_cache_response rs = true ->
  utf8_decode content = Some cs -> (0 < default_ttl c)%Z ->
  db st2 = db (snd (cache_response md5_hex c r rs content None st)) ->
  (clock st + inject_Z (default_ttl c) < clock st2)%Q ->
  get_cached_response md5_hex r st2 = (inr None, st2).
Proof.
  intros Hs Hu Ht Hdb Hc.
  rewrite (cache_response_stores md5_hex c r rs content cs st Hs Hu Ht) in Hdb. simpl in Hdb.
  unfold get_cached_response. destruct (negb (should_cache_request r)); [reflexivity|].
  cbv [try_all bind redis_get redis_lookup ret]. rewrite Hdb, lookup_insert_eq.
  destruct (Qlt_le_dec (clock st2) _) as [C|_]; [lra|]. reflexivity.
Qed.

(** With [CACHE_TTL <= 0], the cache middleware [main.py] builds never
    stores anything: [SETEX] refuses the ttl and the error is swallowed, so
    every [cache_response] leaves the store as it was. *)
Lemma cache_ttl_nonpositive_stores_nothing (md5_hex : string -> string) (s : settings)
    (r : request) (rs : response) (content : list byte) (st : gstate) :
  (CACHE_TTL s <= 0)%Z ->
  cache_response md5_hex (new_cache_mw s (Some (CACHE_TTL s)) None) r rs content None st =
    (inr tt, st).
Proof.
  intros Ht. unfold cache_response.
  destruct (negb (should_cache_response rs)); [reflexivity|].
  unfold cache_write. cbv [try_all bind time_now ret raise redis_setex].
  assert (E : (0 <? z_or None (default_ttl (new_cache_mw s (Some (CACHE_TTL s)) None)))%Z = false).
  { unfold new_cache_mw, z_or. simpl. destruct (CACHE_TTL s =? 0)%Z; apply Z.ltb_ge; lia. }
  destruct content as [|b bs]; [rewrite E; reflexivity|].
  destruct (utf8_decode (b :: bs)); [rewrite E|]; reflexivity.
Qed.

(** ** [CacheMiddleware.dispatch] on a MISS *)

Lemma ascii_lower_idem (c : ascii) : ascii_lower (ascii_lower c) = ascii_lower c.
Proof. destruct c as [[] [] [] [] [] [] [] []]; reflexivity. Qed.

Lemma str_lower_idem (s : string) : str_lower (str_lower s) = str_lower s.
Proof. induction s as [|c s IH]; simpl; [reflexivity|]. rewrite ascii_lower_idem, IH. reflexivity. Qed.

Lemma hdr_get_none (n : string) (hs : headers) :
  (forall k w, In (k, w) hs -> k <> str_lower n) -> hdr_get n hs = None.
Proof.
  induction hs as [|[k v] t IH]; intros H; simpl; [reflexivity|].
  destruct (String.eqb k (str_lower n)) eqn:E.
  - apply String.eqb_eq in E. exfalso. apply (H k v); [left; reflexivity | exact E].
  - apply IH. intros k' w Hin. apply (H k' w). right. exact Hin.
Qed.

Lemma hdr_set_found_keys (k v : string) (hs : headers) (found : bool) (k' w : string) :
  In (k', w) (hdr_set_found k v hs found) -> (exists w', In (k', w') hs) \/ k' = k.
Proof.
  revert found. induction hs as [|[a b] t IH]; intros found; simpl; [intros []|].
  destruct (String.eqb a k) eqn:E.
  - apply String.eqb_eq in E. subst a.
    destruct found; simpl.
    + intros H. destruct (IH true H) as [[w' Hw]|Hk]; [left; exists w'; right; exact Hw | right; exact Hk].
    + intros [H|H]; [injection H as <- _; right; reflexivity|].
      destruct (IH true H) as [[w' Hw]|Hk]; [left; exists w'; right; exact Hw | right; exact Hk].
  - simpl. intros [H|H]; [injection H as <- <-; left; exists b; left; reflexivity|].
    destruct (IH found H) as [[w' Hw]|Hk]; [left; exists w'; right; exact Hw | right; exact Hk].
Qed.

Lemma hdr_set_keys (n v : string) (hs : headers) (k w : string) :
  In (k, w) (hdr_set n v hs) -> (exists w', In (k, w') hs) \/ k = str_lower n.
Proof.
  unfold hdr_set. destruct (List.existsb _ hs).
  - apply hdr_set_found_keys.
  - intros H. apply in_app_or in H as [H|[H|[]]]; [left; exists w; exact H|].
    injection H as <- _. right. reflexivity.
Qed.

Lemma hdr_dict_keys (hs : headers) (k w : string) :
  In (k, w) (hdr_dict hs) -> exists w', In (k, w') hs.
Proof.
  unfold hdr_dict.
  assert (G : forall acc, In (k, w) (fold_left (fun acc '(k, v) =>
    if List.existsb (fun '(k', _) => String.eqb k' k) acc
    then map (fun '(k', v') => if String.eqb k' k then (k', v) else (k', v')) acc
    else app acc [(k, v)]) hs acc) ->
    (exists w', In (k, w') acc) \/ (exists w', In (k, w') hs)).
  { induction hs as [|[a b] t IH]; intros acc H; simpl in H; [left; exists w; exact H|].
    destruct (IH _ H) as [[w' Hw]|[w' Hw]]; [|right; exists w'; right; exact Hw].
    destruct (List.existsb _ acc).
    - apply in_map_iff in Hw as [[k0 v0] [Heq Hin]].
      destruct (String.eqb k0 a); injection Heq as -> _; left; exists v0; exact Hin.
    - apply in_app_or in Hw as [Hw|[Hw|[]]]; [left; exists w'; exact Hw|].
      injection Hw as -> _. right. exists b. left. reflexivity. }
  intros H. destruct (G [] H) as [[w' []]|Hw]. exact Hw.
Qed.

Lemma dict_pop_keys (n : string) (hs : headers) (k w : string) :
  In (k, w) (dict_pop n hs) -> In (k, w) hs.
Proof. unfold dict_pop. intros H. apply List.filter_In in H. apply H. Qed.

Lemma init_headers_keys (status : Z) (body : list byte) (hs : headers) (k w : string) :
  In (k, w) (init_headers status body None hs) ->
  (exists k0 w0, In (k0, w0) hs /\ k = str_lower k0) \/ k = "content-length".
Proof.
  unfold init_headers.
  assert (M : In (k, w) (map (fun '(k, v) => (str_lower k, v)) hs) ->
              exists k0 w0, In (k0, w0) hs /\ k = str_lower k0).
  { intros H. apply in_map_iff in H as [[k0 w0] [Heq Hin]]. injection Heq as <- _.
    exists k0, w0. split; [exact Hin | reflexivity]. }
  destruct (_ && _); intros H.
  - apply in_app_or in H as [H|[H|[]]]; [left; apply M; exact H|].
    injection H as <- _. right. reflexivity.
  - left. apply M. exact H.
Qed.

Lemma str_lower_cache_control (k : string) :
  str_lower k <> "cache-control" -> k <> "cache-control".
Proof. intros H E. apply H. rewrite E. reflexivity. Qed.

(** The response the MISS path rebuilds keeps the body and status of the
    inner response, and has a [Cache-Control] header only if the inner one
    had one. *)
Lemma cache_dispatch_miss (md5_hex : string -> string) (c : cache_mw) (call_next : handler)
    (r : request) (st : gstate) (rs0 : response) (st1 : gstate) :
  cache_enabled c = true -> fst (get_cached_response md5_hex r st) = inr None ->
  call_next r st = (inr rs0, st1) ->
  exists rs,
    cache_dispatch md5_hex c call_next r st =
      (inr rs, snd (cache_response md5_hex c r rs (rs_body rs0) None st1)) /\
    rs_body rs = rs_body rs0 /\ rs_status rs = rs_status rs0 /\
    ((forall k w, In (k, w) (rs_headers rs0) -> str_lower k <> "cache-control") ->
     hdr_get "Cache-Control" (rs_headers rs) = None).
Proof.
  intros He Hg Hc. unfold cache_dispatch. rewrite He. cbn [negb]. cbv [bind time_now ret].
  pose proof (get_cached_response_state md5_hex r st) as Hs.
  destruct (get_cached_response md5_hex r st) as [x stA]. simpl in Hg, Hs. subst x stA.
  rewrite Hc.
  assert (Ok : forall rs content st2, fst (cache_response md5_hex c r rs content None st2) = inr tt).
  { intros rs content st2. unfold cache_response.
    destruct (negb (should_cache_response rs)); [reflexivity|].
    cbv [try_all]. destruct (cache_write _ _ rs content st2) as [[e|[]] st3]; reflexivity. }
  match goal with |- context [cache_response md5_hex c r ?rs ?content None ?s] =>
    exists rs; rewrite (surjective_pairing (cache_response md5_hex c r rs content None s)),
                 (Ok rs content s)
  end.
  split; [reflexivity|]. split; [reflexivity|]. split; [reflexivity|].
  intros Hk. cbn [rs_headers].
  rewrite !set_header_get_other by discriminate.
  apply hdr_get_none. intros k w Hin.
  apply init_headers_keys in Hin as [(k0 & w0 & Hin & ->)| ->]; [|discriminate].
  apply dict_pop_keys, dict_pop_keys, hdr_dict_keys in Hin as [w1 Hin].
  apply str_lower_cache_control. rewrite str_lower_idem. simpl.
  cbn [rs_headers set_header] in Hin.
  apply hdr_set_keys in Hin as [[w2 Hin]| ->]; [|discriminate].
  apply hdr_set_keys in Hin as [[w3 Hin]| ->]; [|discriminate].
  exact (Hk k0 w3 Hin).
Qed.

Lemma should_cache_response_no_cc (rs : response) :
  hdr_get "Cache-Control" (rs_headers rs) = None ->
  should_cache_response rs = ((200 <=? rs_status rs) && (rs_status rs <? 300))%Z.
Proof.
  intros H. unfold should_cache_response. rewrite H. simpl.
  destruct (rs_status rs <? 200)%Z eqn:E1, (300 <=? rs_status rs)%Z eqn:E2,
    (200 <=? rs_status rs)%Z eqn:E3, (rs_status rs <? 300)%Z eqn:E4; simpl;
    reflexivity || lia.
Qed.

(** After a MISS has stored the inner response, the same request, while
    the entry is live, is a HIT: the middleware answers with the stored
    status and body, marked [X-Cache: HIT], and leaves the state as it was
    (the inner handler is not called). *)
Lemma cache_hit_replays_response (md5_hex : string -> string) (c : cache_mw)
    (call_next : handler) (r : request) (st : gstate) (rs0 : response) (st1 : gstate)
    (cs : list Z) (st2 : gstate) :
  cache_enabled c = true -> should_cache_request r = true -> (0 < default_ttl c)%Z ->
  fst (get_cached_response md5_hex r st) = inr None ->
  call_next r st = (inr rs0, st1) ->
  (200 <= rs_status rs0 < 300)%Z ->
  (forall k w, In (k, w) (rs_headers rs0) -> str_lower k <> "cache-control") ->
  utf8_decode (rs_body rs0) = Some cs ->
  db st2 = db (snd (cache_dispatch md5_hex c call_next r st)) ->
  (clock st2 < clock st1 + inject_Z (default_ttl c))%Q ->
  exists rs, cache_dispatch md5_hex c call_next r st2 = (inr rs, st2) /\
    rs_body rs = rs_body rs0 /\ rs_status rs = rs_status rs0 /\
    hdr_get "X-Cache" (rs_headers rs) = Some "HIT".
Proof.
  intros He Hq Ht Hg Hc Hs Hk Hu Hdb Hclk.
  destruct (cache_dispatch_miss md5_hex c call_next r st rs0 st1 He Hg Hc)
    as (rs & E & Eb & Es & Hcc).
  rewrite E in Hdb. simpl in Hdb.
  assert (Sc : should_cache_response rs = true).
  { rewrite should_cache_response_no_cc by exact (Hcc Hk). rewrite Es.
    apply andb_true_iff. split; [apply Z.leb_le | apply Z.ltb_lt]; lia. }
  pose proof (cache_write_then_read md5_hex c r rs (rs_body rs0) cs st1 st2 Hq Sc Hu Ht Hdb Hclk)
    as Hr.
  unfold cache_dispatch. rewrite He. cbn [negb]. cbv [bind ret]. rewrite Hr.
  eexists. split; [reflexivity|]. cbn [rs_body rs_status mk_response].
  split; [reflexivity|]. split; [exact Es|]. apply hit_headers_x_cache.
Qed.

(** [cache_response] does not look at the request: a request the cache
    does not read for (not a GET, [/health], or [Cache-Control: no-cache])
    always goes to the inner handler, and a storable 2xx response is still
    written under the request's fingerprint; the rest of the store is the
    inner handler's. *)
Lemma cache_bypassed_request_still_written (md5_hex : string -> string) (c : cache_mw)
    (call_next : handler) (r : request) (st : gstate) (rs0 : response) (st1 : gstate)
    (cs : list Z) :
  cache_enabled c = true -> should_cache_request r = false -> (0 < default_ttl c)%Z ->
  call_next r st = (inr rs0, st1) ->
  (200 <= rs_status rs0 < 300)%Z ->
  (forall k w, In (k, w) (rs_headers rs0) -> str_lower k <> "cache-control") ->
  utf8_decode (rs_body rs0) = Some cs ->
  exists rs st', cache_dispatch md5_hex c call_next r st = (inr rs, st') /\
    rs_body rs = rs_body rs0 /\ rs_status rs = rs_status rs0 /\
    (exists e, db st' !! _generate_cache_key md5_hex r =
                 Some (RStr e, Some (clock st1 + inject_Z (default_ttl c))%Q) /\
               utf8_encode (ce_content e) = rs_body rs0 /\ ce_status e = rs_status rs0) /\
    (forall k, k <> _generate_cache_key md5_hex r -> db st' !! k = db st1 !! k).
Proof.
  intros He Hq Ht Hc Hs Hk Hu.
  assert (Hg : fst (get_cached_response md5_hex r st) = inr None)
    by (unfold get_cached_response; rewrite Hq; reflexivity).
  destruct (cache_dispatch_miss md5_hex c call_next r st rs0 st1 He Hg Hc)
    as (rs & E & Eb & Es & Hcc).
  assert (Sc : should_cache_response rs = true).
  { rewrite should_cache_response_no_cc by exact (Hcc Hk). rewrite Es.
    apply andb_true_iff. split; [apply Z.leb_le | apply Z.ltb_lt]; lia. }
  rewrite E, (cache_response_stores md5_hex c r rs _ cs st1 Sc Hu Ht).
  eexists; eexists. split; [reflexivity|]. split; [exact Eb|]. split; [exact Es|]. simpl.
  split.
  - eexists. rewrite lookup_insert_eq. split; [reflexivity|]. simpl.
    rewrite (stored_text_encode _ cs Hu). split; [reflexivity | exact Es].
  - intros k Hne. rewrite lookup_insert_ne by congruence. reflexivity.
Qed.

(** A response with a status outside 200-299 is never cached: on a MISS
    the middleware returns it with its status and body, and the store is
    exactly the one the inner handler left. *)
Lemma cache_error_status_not_stored (md5_hex : string -> string) (c : cache_mw)
    (call_next : handler) (r : request) (st : gstate) (rs0 : response) (st1 : gstate) :
  cache_enabled c = true -> fst (get_cached_response md5_hex r st) = inr None ->
  call_next r st = (inr rs0, st1) ->
  ~ (200 <= rs_status rs0 < 300)%Z ->
  exists rs, cache_dispatch md5_hex c call_next r st = (inr rs, st1) /\
    rs_body rs = rs_body rs0 /\ rs_status rs = rs_status rs0.
Proof.
  intros He Hg Hc Hs.
  destruct (cache_dispatch_miss md5_hex c call_next r st rs0 st1 He Hg Hc)
    as (rs & E & Eb & Es & _).
  exists rs. rewrite E. split; [|split; assumption].
  unfold cache_response, should_cache_response. rewrite Es.
  destruct (rs_status rs0 <? 200)%Z eqn:E1; [reflexivity|].
  destruct (300 <=? rs_status rs0)%Z eqn:E2; [reflexivity|].
  apply Z.ltb_ge in E1. apply Z.leb_gt in E2. lia.
Qed.

(** ** [RedisRateLimiter.is_rate_limited]: what it reports *)

Lemma bucket_update_limited (lim : limiter) (now : Q) (b : option Q * option Q) :
  fst (bucket_update lim now b) = true -> (snd (bucket_update lim now b) < 1)%Q.
Proof.
  unfold bucket_update. cbn [fst snd].
  destruct (Qlt_le_dec _ 1) as [H|H]; simpl; [intros _; exact H | discriminate].
Qed.

Lemma py_int_nonneg (q : Q) : (0 <= q)%Q -> py_int q = Qfloor q.
Proof. intros H. unfold py_int. apply Qle_bool_iff in H. rewrite H. reflexivity. Qed.

Lemma py_int_range (q : Q) (m : Z) :
  (0 <= q <= inject_Z m)%Q -> (0 <= py_int q <= m)%Z /\ ((q < 1)%Q -> py_int q = 0%Z).
Proof.
  intros [H0 H1]. rewrite py_int_nonneg by exact H0.
  assert (F0 : (0 <= Qfloor q)%Z).
  { rewrite <- (Qfloor_Z 0). apply Qfloor_resp_le. exact H0. }
  assert (F1 : (Qfloor q <= m)%Z).
  { rewrite <- (Qfloor_Z m). apply Qfloor_resp_le. exact H1. }
  split; [lia|]. intros H2.
  assert (F2 : (Qfloor q < 1)%Z).
  { pose proof (Qfloor_le q) as L.
    assert (L2 : (inject_Z (Qfloor q) < inject_Z 1)%Q)
      by (apply (Qle_lt_trans _ q); [exact L | exact H2]).
    rewrite <- Zlt_Qlt in L2. exact L2. }
  lia.
Qed.

Lemma rl_attempt_result (lim : limiter) (key : string) (ttl : Z) (st : gstate) (lb : bool) (rem : Z) :
  (0 <= inject_Z (max_tokens lim))%Q -> (0 <= refill_rate lim)%Q -> bucket_ok lim key st ->
  fst (rl_attempt lim key (clock st) ttl st) = inr (lb, rem) ->
  (lb = true -> rem = 0%Z) /\ (0 <= rem <= max_tokens lim)%Z.
Proof.
  intros Hm Hr Hok. pose proof Hok as Hok0. unfold bucket_ok in Hok0.
  unfold rl_attempt. unfold_monad.
  split_attempt lim st key; intros H; cbn [fst] in H; try discriminate.
  all: try (destruct (0 <? ttl)%Z; cbn [fst] in H).
  all: injection H as <- <-; rewrite ?Ed in Hok0.
  all: match goal with
       | Eb : bucket_update _ _ (?a, ?b) = _ |- _ =>
         pose proof (bucket_update_range lim (clock st) a b Hm Hr) as R;
         pose proof (bucket_update_limited lim (clock st) (a, b)) as Lm;
         rewrite Eb in R, Lm; cbn [fst snd] in R, Lm
       end.
  all: assert (R' : (0 <= tok <= inject_Z (max_tokens lim))%Q)
         by (apply R; try (intros; discriminate); apply Hok0).
  all: destruct (py_int_range tok (max_tokens lim) R') as [P1 P2].
  all: split; [intros ->; apply P2, Lm; reflexivity | exact P1].
Qed.

Lemma rl_loop_result (lim : limiter) (key : string) (ttl : Z) (left : nat) :
  (0 <= inject_Z (max_tokens lim))%Q -> (0 <= refill_rate lim)%Q ->
  forall attempt st l rem, bucket_ok lim key st ->
  fst (rl_loop lim key (clock st) ttl attempt left st) = inr (Some (l, rem)) ->
  (l = true -> rem = 0%Z) /\ (0 <= rem <= max_tokens lim)%Z.
Proof.
  intros Hm Hr. assert (Hm' : (0 <= max_tokens lim)%Z) by (unfold Qle in Hm; simpl in Hm; lia).
  induction left as [|left IH]; intros attempt st l rem Hok; simpl; [discriminate|].
  cbv [try_watch bind ret].
  pose proof (rl_attempt_frame lim key (clock st) ttl st) as [F1 _].
  pose proof (rl_attempt_ok lim key ttl st Hm Hr Hok) as Hok1.
  pose proof (rl_attempt_result lim key ttl st) as Res.
  destruct (rl_attempt lim key (clock st) ttl st) as [[e|x] st1]; simpl in *.
  - destruct e; simpl; try discriminate.
    match goal with |- context [if ?b then _ else _] => destruct b end; simpl.
    + intros H. injection H as <- <-. split; [discriminate | lia].
    + rewrite <- F1. apply IH. exact Hok1.
  - intros H. injection H as ->. apply (Res l rem Hm Hr Hok eq_refl).
Qed.

(** From a valid bucket, the limiter's answer is either a denial with
    [remaining = 0] or an admission with [0 <= remaining <= max_tokens]
    (the fail-open answer included). *)
Lemma is_rate_limited_answer (per w : Z) (lim : limiter) (client_id : string) (st : gstate) :
  new_limiter per w = inr lim -> (0 <= per)%Z -> (0 < w)%Z ->
  bucket_ok lim ("rate_limit:" ++ client_id) st ->
  exists limited remaining,
    fst (is_rate_limited lim client_id st) = inr (Some (limited, remaining)) /\
    (limited = true -> remaining = 0%Z) /\ (0 <= remaining <= max_tokens lim)%Z.
Proof.
  intros Hl Hp Hw Hok.
  destruct (new_limiter_bounds per w lim Hl Hp Hw) as [Hm Hr].
  assert (Hm' : (0 <= max_tokens lim)%Z) by (unfold Qle in Hm; simpl in Hm; lia).
  pose proof (is_rate_limited_some lim client_id st) as [[l rem] Hs].
  exists l, rem. split; [exact Hs|].
  unfold is_rate_limited in Hs. cbv [bind time_now try_all ret] in Hs.
  pose proof (rl_loop_result lim ("rate_limit:" ++ client_id) (window_size lim * 3) max_retries
                Hm Hr 0 st) as Res.
  destruct (rl_loop _ _ _ _ 0 max_retries st) as [[e|x] st1]; simpl in Hs.
  - injection Hs as <- <-. split; [discriminate | lia].
  - apply (Res l rem Hok). rewrite Hs. reflexivity.
Qed.

Lemma py_int_comp (q q' : Q) : (q == q')%Q -> py_int q = py_int q'.
Proof.
  intros H. unfold py_int.
  destruct (Qle_bool 0 q) eqn:E1, (Qle_bool 0 q') eqn:E2.
  - apply Qfloor_comp. exact H.
  - apply Qle_bool_iff in E1. rewrite H in E1. apply Qle_bool_iff in E1. congruence.
  - apply Qle_bool_iff in E2. rewrite <- H in E2. apply Qle_bool_iff in E2. congruence.
  - f_equal. apply Qfloor_comp. rewrite H. reflexivity.
Qed.

Lemma py_int_Z (z : Z) : (0 <= z)%Z -> py_int (inject_Z z) = z.
Proof.
  intros H. rewrite py_int_nonneg by (unfold Qle; simpl; lia). apply Qfloor_Z.
Qed.

Lemma bucket_same_instant (lim : limiter) (now : Q) (t l : option Q) (m : Z) :
  (match t with Some x => x | None => inject_Z (max_tokens lim) end == inject_Z m)%Q ->
  (match l with Some y => y | None => now end == now)%Q ->
  (0 <= m <= max_tokens lim)%Z ->
  ((1 <= m)%Z -> fst (bucket_update lim now (t, l)) = false /\
                 (snd (bucket_update lim now (t, l)) == inject_Z (m - 1))%Q) /\
  ((m < 1)%Z -> fst (bucket_update lim now (t, l)) = true /\
                (snd (bucket_update lim now (t, l)) == inject_Z m)%Q).
Proof.
  intros HT HL Hm. unfold bucket_update. cbn [fst snd].
  remember (match t with Some x => x | None => inject_Z (max_tokens lim) end) as T eqn:ET.
  remember (match l with Some y => y | None => now end) as L eqn:EL.
  assert (X : (T + (now - L) * refill_rate lim == inject_Z m)%Q) by (rewrite HT, HL; ring).
  assert (HP : (py_min (inject_Z (max_tokens lim)) (T + (now - L) * refill_rate lim)
                == inject_Z m)%Q).
  { unfold py_min. destruct (Qlt_le_dec _ _) as [A|A]; [exact X|].
    rewrite X in A. rewrite <- Zle_Qle in A.
    assert (m = max_tokens lim) as -> by lia. reflexivity. }
  remember (py_min (inject_Z (max_tokens lim)) (T + (now - L) * refill_rate lim)) as P eqn:EP.
  destruct (Qlt_le_dec P 1) as [A|A]; cbn [fst snd].
  - rewrite HP in A. change 1%Q with (inject_Z 1) in A. rewrite <- Zlt_Qlt in A.
    split; [lia | intros _; split; [reflexivity | exact HP]].
  - rewrite HP in A. change 1%Q with (inject_Z 1) in A. rewrite <- Zle_Qle in A.
    split; [intros _; split; [reflexivity|] | lia].
    rewrite HP. unfold Qeq; simpl; lia.
Qed.

Lemma redis_hmget_state (k : string) (st : gstate) : snd (redis_hmget k st) = st.
Proof.
  unfold redis_hmget, redis_lookup. cbv [bind ret raise]. cbn [fst snd].
  destruct (match db st !! k with
            | Some (v, Some exp) => if Qlt_le_dec (clock st) exp then Some v else None
            | Some (v, None) => Some v
            | None => None
            end) as [[t l|ce]|]; reflexivity.
Qed.

(** With no store fault the limiter reads the bucket once and writes the
    updated record back. *)
Lemma is_rate_limited_no_fault (lim : limiter) (client_id : string) (st : gstate) (b : option Q * option Q) :
  faults st = [] -> (0 < window_size lim * 3)%Z ->
  fst (redis_hmget ("rate_limit:" ++ client_id) st) = inr b ->
  is_rate_limited lim client_id st =
  (inr (Some (fst (bucket_update lim (clock st) b), py_int (snd (bucket_update lim (clock st) b)))),
   set_db st (<[("rate_limit:" ++ client_id) :=
                 (RHash (Some (snd (bucket_update lim (clock st) b))) (Some (clock st)),
                  Some (clock st + inject_Z (window_size lim * 3))%Q)]> (db st))).
Proof.
  intros Ef Ht Hb.
  unfold is_rate_limited. cbv [bind time_now try_all ret]. unfold max_retries. simpl rl_loop.
  cbv [try_watch bind ret]. unfold rl_attempt. cbv [bind next_fault]. rewrite Ef.
  rewrite (surjective_pairing (redis_hmget _ st)), Hb, redis_hmget_state.
  destruct (bucket_update lim (clock st) b) as [li tok]. cbn [fst snd].
  unfold redis_hset_expire. apply Z.ltb_lt in Ht. rewrite Ht. reflexivity.
Qed.

Lemma burst_step (lim : limiter) (client_id : string) (now : Q) (m : Z) (st : gstate) :
  (0 < window_size lim)%Z ->
  burst_bucket lim ("rate_limit:" ++ client_id) now m st ->
  let st' := mkState (db st) now (faults st) (origin_log st) in
  fst (is_rate_limited lim client_id st') =
    inr (Some (if (1 <=? m)%Z then (false, (m - 1)%Z) else (true, 0%Z))) /\
  burst_bucket lim ("rate_limit:" ++ client_id) now (if (1 <=? m)%Z then (m - 1)%Z else m)
               (snd (is_rate_limited lim client_id st')).
Proof.
  intros Hw [Ef [Hm Hb]]. cbv zeta.
  assert (Ht : (0 < window_size lim * 3)%Z) by lia.
  assert (Hlive : (now < now + inject_Z (window_size lim * 3))%Q).
  { assert (P : (0 < inject_Z (window_size lim * 3))%Q) by (unfold Qlt; simpl; lia). lra. }
  assert (E : exists t l, fst (redis_hmget ("rate_limit:" ++ client_id) (mkState (db st) now (faults st) (origin_log st)))
                          = inr (t, l) /\
             (match t with Some x => x | None => inject_Z (max_tokens lim) end == inject_Z m)%Q /\
             (match l with Some y => y | None => now end == now)%Q).
  { destruct Hb as [[Hn ->] | [t [Hs Heq]]].
    - exists None, None. unfold redis_hmget, redis_lookup. cbv [bind ret]. cbn [db].
      rewrite Hn. cbn. repeat split; reflexivity.
    - exists (Some t), (Some now). unfold redis_hmget, redis_lookup. cbv [bind ret]. cbn [db clock].
      rewrite Hs. destruct (Qlt_le_dec now _) as [_|A]; [|lra]. cbn.
      split; [reflexivity | split; [exact Heq | reflexivity]]. }
  destruct E as [t [l [Hg [HT HL]]]].
  rewrite (is_rate_limited_no_fault lim client_id (mkState (db st) now (faults st) (origin_log st))
             (t, l) Ef Ht Hg). cbn [fst snd clock].
  destruct (bucket_same_instant lim now t l m HT HL Hm) as [B1 B2].
  destruct (1 <=? m)%Z eqn:E1; [apply Z.leb_le in E1 | apply Z.leb_gt in E1].
  - destruct (B1 E1) as [F T1]. rewrite F, (py_int_comp _ _ T1), py_int_Z by lia.
    split; [reflexivity|]. unfold burst_bucket. cbn [db faults set_db].
    split; [exact Ef | split; [lia|]]. right.
    eexists. split; [apply lookup_insert_eq | exact T1].
  - destruct (B2 E1) as [F T1]. rewrite F, (py_int_comp _ _ T1), py_int_Z by lia.
    assert (m = 0%Z) as -> by lia.
    split; [reflexivity|]. unfold burst_bucket. cbn [db faults set_db].
    split; [exact Ef | split; [lia|]]. right.
    eexists. split; [apply lookup_insert_eq | exact T1].
Qed.

Lemma burst_run (lim : limiter) (client_id : string) (now : Q) (n : nat) :
  (0 < window_size lim)%Z ->
  forall m st, burst_bucket lim ("rate_limit:" ++ client_id) now m st ->
  burst_bucket lim ("rate_limit:" ++ client_id) now (Z.max 0 (m - Z.of_nat n))
               (run_calls lim client_id (repeat now n) st).
Proof.
  intros Hw. induction n as [|n IH]; intros m st Hb; cbn [run_calls repeat].
  - assert (E : Z.max 0 (m - Z.of_nat 0) = m) by (destruct Hb as [_ [Hm _]]; lia).
    rewrite E. exact Hb.
  - destruct (burst_step lim client_id now m st Hw Hb) as [_ Hb1].
    pose proof (IH _ _ Hb1) as H.
    destruct Hb as [_ [Hm _]].
    destruct (1 <=? m)%Z eqn:E; [apply Z.leb_le in E | apply Z.leb_gt in E].
    + replace (Z.max 0 (m - Z.of_nat (S n))) with (Z.max 0 (m - 1 - Z.of_nat n)) by lia.
      exact H.
    + replace (Z.max 0 (m - Z.of_nat (S n))) with (Z.max 0 (m - Z.of_nat n)) by lia.
      exact H.
Qed.

(** A burst from a client with no bucket: with no store faults, among
    calls made at one instant the call after [n] earlier ones is admitted
    with [remaining = per - n - 1] while [n < per], and denied with
    [remaining = 0] from then on. *)
Lemma rate_limit_burst (per w : Z) (lim : limiter) (client_id : string) (now : Q) (n : nat)
    (st : gstate) :
  new_limiter per w = inr lim -> (0 <= per)%Z -> (0 < w)%Z -> faults st = [] ->
  db st !! ("rate_limit:" ++ client_id) = None ->
  let s := run_calls lim client_id (repeat now n) st in
  fst (is_rate_limited lim client_id (mkState (db s) now (faults s) (origin_log s))) =
  inr (Some (if (Z.of_nat n <? per)%Z then (false, (per - Z.of_nat n - 1)%Z) else (true, 0%Z))).
Proof.
  intros Hl Hp Hw Ef Hn. cbv zeta.
  unfold new_limiter in Hl. destruct (w =? 0)%Z; [discriminate|]. injection Hl as <-.
  assert (Hb : burst_bucket (mkLimiter per (inject_Z per / inject_Z w) w)
                 ("rate_limit:" ++ client_id) now per st).
  { unfold burst_bucket. cbn [max_tokens]. split; [exact Ef | split; [lia | left; split; auto]]. }
  pose proof (burst_run (mkLimiter per (inject_Z per / inject_Z w) w) client_id now n Hw per st Hb)
    as Hr.
  destruct (burst_step (mkLimiter per (inject_Z per / inject_Z w) w) client_id now _ _ Hw Hr)
    as [A _]. rewrite A. cbn [max_tokens].
  destruct (Z.of_nat n <? per)%Z eqn:E; [apply Z.ltb_lt in E | apply Z.ltb_ge in E].
  - replace (1 <=? Z.max 0 (per - Z.of_nat n))%Z with true by (symmetry; apply Z.leb_le; lia).
    do 3 f_equal. lia.
  - replace (1 <=? Z.max 0 (per - Z.of_nat n))%Z with false by (symmetry; apply Z.leb_gt; lia).
    reflexivity.
Qed.

(** ** [RedisRateLimiter.is_rate_limited]: the keys it touches *)

Lemma rl_attempt_other_keys (lim : limiter) (key : string) (now : Q) (ttl : Z) (st : gstate) (k : string) :
  k <> key -> db (snd (rl_attempt lim key now ttl st)) !! k = db st !! k.
Proof.
  intros Hk. unfold rl_attempt. unfold_monad.
  split_attempt lim st key; try reflexivity.
  all: destruct (0 <? ttl)%Z; cbn [db set_db];
       [apply lookup_insert_ne | apply lookup_delete_ne]; congruence.
Qed.

Lemma rl_loop_other_keys (lim : limiter) (key : string) (now : Q) (ttl : Z) (left : nat) (k : string) :
  k <> key -> forall attempt st,
  db (snd (rl_loop lim key now ttl attempt left st)) !! k = db st !! k.
Proof.
  intros Hk. induction left as [|left IH]; intros attempt st; simpl; [reflexivity|].
  cbv [try_watch bind ret].
  pose proof (rl_attempt_other_keys lim key now ttl st k Hk) as F.
  destruct (rl_attempt lim key now ttl st) as [[e|x] st1]; simpl in *; [|exact F].
  destruct e; simpl; try exact F.
  match goal with |- context [if ?b then _ else _] => destruct b end; simpl; [exact F|].
  rewrite IH. exact F.
Qed.

(** The limiter writes only the bucket of the client it is asked about:
    every other key of the store keeps its value and expiry. *)
Lemma is_rate_limited_other_keys (lim : limiter) (client_id : string) (st : gstate) (k : string) :
  k <> "rate_limit:" ++ client_id ->
  db (snd (is_rate_limited lim client_id st)) !! k = db st !! k.
Proof.
  intros Hk. unfold is_rate_limited. cbv [bind time_now try_all ret].
  pose proof (rl_loop_other_keys lim ("rate_limit:" ++ client_id) (clock st) (window_size lim * 3)
                max_retries k Hk 0 st) as F.
  destruct (rl_loop _ _ _ _ 0 max_retries st) as [[e|x] st1]; simpl in *; exact F.
Qed.

(** ** [RateLimitMiddleware.dispatch]: a denial *)

(** When the limiter denies a non-[/health] request, the middleware
    answers 429 with the rate-limit headers, leaves the store as the
    limiter left it, and never runs the inner handler. *)
Lemma rate_limit_denial_skips_handler (lim : limiter) (call_next : handler) (r : request)
    (st : gstate) (remaining : Z) :
  rq_path r <> "/health" ->
  fst (is_rate_limited lim (_get_client_id r) st) = inr (Some (true, remaining)) ->
  ~ (refill_rate lim == 0)%Q ->
  rate_limit_dispatch lim call_next r st =
  (inr (detail_response "Too many requests" 429
          (rate_limit_headers lim remaining (py_int (clock st + 1 / refill_rate lim) + 1))),
   snd (is_rate_limited lim (_get_client_id r) st)).
Proof.
  intros Hp Hl Hr. unfold rate_limit_dispatch.
  apply String.eqb_neq in Hp. rewrite Hp. cbv [bind].
  pose proof (is_rate_limited_frame lim (_get_client_id r) st) as [F _].
  destruct (is_rate_limited lim (_get_client_id r) st) as [res st1]. cbn [fst snd] in *.
  subst res. cbv [time_now py_div ret raise]. rewrite F.
  destruct (Qeq_bool (refill_rate lim) 0) eqn:E.
  - apply Qeq_bool_iff in E. contradiction.
  - reflexivity.
Qed.

(** ** The application of [main.py] *)

Lemma main_middleware_auth_first (s : settings) (stack : list middleware) :
  main_middleware s = inr stack -> exists rest, stack = MwAuth :: rest.
Proof.
  unfold main_middleware. intros H.
  destruct (RATE_LIMIT_ENABLED s);
    [destruct (new_rate_limit_mw s _ _) as [e|lim]; [discriminate|]|];
    injection H as <-; eexists; reflexivity.
Qed.

(** A zero [RATE_LIMIT_WINDOW_SECONDS] with the limiter enabled makes
    building the middleware stack raise [ZeroDivisionError], so every
    request fails, whatever its path, before anything is read or written. *)
Lemma gateway_zero_window_fails (md5_hex : string -> string) (jwt_decode : string -> jwt_result)
    (origin : request -> option response) (local_routes : request -> option (M response))
    (s : settings) (r : request) (st : gstate) :
  RATE_LIMIT_ENABLED s = true -> RATE_LIMIT_WINDOW_SECONDS s = 0%Z ->
  gateway md5_hex jwt_decode origin local_routes s r st = (inl ZeroDivisionError, st).
Proof.
  intros He Hw. unfold gateway, main_middleware, new_rate_limit_mw, z_or, new_limiter.
  rewrite He, Hw. cbn. destruct (RATE_LIMIT_PER_MINUTE s =? 0)%Z; reflexivity.
Qed.

(** Authentication is the outermost layer: a non-[/health] request that
    the authenticator does not accept (no usable [Bearer] header, or a
    token that does not decode) is answered 401 or 500 with a [detail]
    body, and the store, the clock, the pending faults and the origin log
    are left as they were: no bucket, cache entry or upstream call. *)
Lemma gateway_auth_rejection_touches_nothing (md5_hex : string -> string)
    (jwt_decode : string -> jwt_result) (origin : request -> option response)
    (local_routes : request -> option (M response)) (s : settings) (stack : list middleware)
    (r : request) (st : gstate) :
  main_middleware s = inr stack -> rq_path r <> "/health" ->
  (forall a p, hdr_get "Authorization" (rq_headers r) = Some a ->
     negb (String.eqb a "") && str_startswith a "Bearer " = true ->
     jwt_decode (str_strip (str_removeprefix a "Bearer ")) <> JwtOk p) ->
  exists msg status,
    gateway md5_hex jwt_decode origin local_routes s r st = (inr (detail_response msg status []), st) /\
    (status = 401 \/ status = 500)%Z.
Proof.
  intros Hs Hp Ha. destruct (main_middleware_auth_first s stack Hs) as [rest ->].
  unfold gateway. rewrite Hs. unfold server_error, try_all, build_stack. cbn [fold_right run_middleware].
  unfold auth_dispatch. apply String.eqb_neq in Hp. rewrite Hp.
  destruct (hdr_get "Authorization" (rq_headers r)) as [a|] eqn:Eh.
  - destruct (negb (String.eqb a "") && str_startswith a "Bearer ") eqn:Eb.
    + destruct (jwt_decode (str_strip (str_removeprefix a "Bearer "))) as [p| | |msg] eqn:Ej.
      * exfalso. exact (Ha a p eq_refl Eb Ej).
      * do 2 eexists. split; [reflexivity | left; reflexivity].
      * do 2 eexists. split; [reflexivity | left; reflexivity].
      * do 2 eexists. split; [reflexivity | right; reflexivity].
    + do 2 eexists. split; [reflexivity | left; reflexivity].
  - do 2 eexists. split; [reflexivity | left; reflexivity].
Qed.

(** ** [proxy_request] *)

(** A request the catch-all route accepts, to an origin that fails with
    an [httpx.HTTPError], becomes a 502 [Bad Gateway] JSON response; the
    forwarded request is recorded once and the store is untouched. *)
Lemma route_origin_failure_bad_gateway (origin : request -> option response)
    (local_routes : request -> option (M response)) (r : request) (st : gstate) :
  rq_path r <> "/health" -> local_routes r = None ->
  In (rq_method r) ["GET"; "POST"; "PUT"; "DELETE"; "PATCH"] ->
  origin (forwarded_request r) = None ->
  router_app origin local_routes r st =
  (inr (detail_response "Bad Gateway" 502 []),
   mkState (db st) (clock st) (faults st) (origin_log st ++ [forwarded_request r])).
Proof.
  intros Hp Hl Hm Ho. unfold router_app, route.
  apply String.eqb_neq in Hp. rewrite Hp, Hl. cbn [andb].
  assert (E : existsb (String.eqb (rq_method r)) proxy_methods = true).
  { apply existsb_exists. exists (rq_method r). split; [|apply String.eqb_refl].
    unfold proxy_methods. simpl in *. tauto. }
  rewrite E. unfold proxy_request. rewrite Ho. reflexivity.
Qed.


(** ** Cache invalidation *)

Lemma map_fst_fmap {A B : Type} (l : list (A * B)) : map fst l = l.*1.
Proof. induction l as [|x l IH]; [reflexivity|]. cbn. rewrite IH. reflexivity. Qed.

Lemma live_key_lookup (st : gstate) (k : string) : live_key st k = true -> db st !! k <> None.
Proof. unfold live_key. destruct (db st !! k); [intros _; discriminate | discriminate]. Qed.

Lemma redis_keys_in (glob_match : string -> string -> bool) (pattern : string) (st : gstate) (k : string) :
  In k (List.filter (fun k => live_key st k && glob_match pattern k) (map fst (map_to_list (db st))))
  <-> live_key st k && glob_match pattern k = true.
Proof.
  rewrite filter_In. split; [tauto|]. intros H. split; [|exact H].
  apply andb_true_iff in H as [Hl _]. apply live_key_lookup in Hl.
  destruct (db st !! k) as [v|] eqn:E; [|congruence].
  apply in_map_iff. exists (k, v). split; [reflexivity|].
  apply list_elem_of_In, elem_of_map_to_list. exact E.
Qed.

Lemma redis_keys_nodup (glob_match : string -> string -> bool) (pattern : string) (st : gstate) :
  List.NoDup (List.filter (fun k => live_key st k && glob_match pattern k)
                          (map fst (map_to_list (db st)))).
Proof.
  apply List.NoDup_filter. rewrite map_fst_fmap. apply NoDup_ListNoDup, NoDup_fst_map_to_list.
Qed.

Lemma fold_delete_lookup (ks : list string) (d : gmap string (rvalue * option Q)) (k : string) :
  fold_left (fun d k => delete k d) ks d !! k = if in_dec string_dec k ks then None else d !! k.
Proof.
  revert d. induction ks as [|x ks IH]; intros d; cbn [fold_left].
  - destruct (in_dec string_dec k []) as [[]|]; reflexivity.
  - rewrite IH. destruct (in_dec string_dec k ks) as [H|H];
      destruct (in_dec string_dec k (x :: ks)) as [H'|H'].
    + reflexivity.
    + exfalso. apply H'. right. exact H.
    + destruct H' as [->|H']; [apply lookup_delete_eq | tauto].
    + apply lookup_delete_ne. intros ->. apply H'. left. reflexivity.
Qed.

Lemma fold_delete_size (ks : list string) (d : gmap string (rvalue * option Q)) :
  List.NoDup ks -> (forall k, In k ks -> d !! k <> None) ->
  (size (fold_left (fun d k => delete k d) ks d) + length ks = size d)%nat.
Proof.
  revert d. induction ks as [|x ks IH]; intros d Hn Hin; simpl; [lia|].
  inversion Hn as [|? ? Hx Hn']; subst.
  assert (Hd : is_Some (d !! x)).
  { destruct (d !! x) eqn:E; [eexists; reflexivity | exfalso; apply (Hin x); [left|]; auto]. }
  assert (E : (size (fold_left (fun d k => delete k d) ks (delete x d)) + length ks
               = size (delete x d))%nat).
  { apply IH; [exact Hn'|].
    intros k Hk. rewrite lookup_delete_ne by (intros ->; tauto). apply Hin. right. exact Hk. }
  rewrite map_size_delete_Some in E by exact Hd.
  pose proof (map_size_ne_0_lookup_2 d x Hd). lia.
Qed.

Lemma invalidate_cache_pattern_spec (glob_match : string -> string -> bool) (pattern : string)
    (st : gstate) :
  invalidate_cache_pattern glob_match pattern st =
  (inr tt, set_db st (fold_left (fun d k => delete k d)
                        (List.filter (fun k => live_key st k && glob_match ("cache:" ++ pattern) k)
                                     (map fst (map_to_list (db st)))) (db st))).
Proof.
  unfold invalidate_cache_pattern, try_all, bind, redis_keys. cbn.
  destruct (List.filter _ _); [|reflexivity]. cbn.
  destruct st; reflexivity.
Qed.

(** [invalidate_cache_pattern] never raises and deletes exactly the live
    keys that [KEYS cache:{pattern}] reports; every other key keeps its
    value and expiry, and the clock, faults and origin log are unchanged. *)
Lemma invalidate_cache_pattern_effect (glob_match : string -> string -> bool) (pattern : string)
    (st : gstate) :
  exists d, invalidate_cache_pattern glob_match pattern st = (inr tt, set_db st d) /\
  forall k, d !! k = if live_key st k && glob_match ("cache:" ++ pattern) k then None else db st !! k.
Proof.
  eexists. split; [apply invalidate_cache_pattern_spec|].
  intros k. rewrite fold_delete_lookup.
  destruct (in_dec string_dec k _) as [H|H]; rewrite redis_keys_in in H.
  - rewrite H. reflexivity.
  - apply not_true_is_false in H. rewrite H. reflexivity.
Qed.

(** Whatever the pattern, [invalidate_cache_pattern] never deletes a
    rate-limit bucket, provided the glob matcher treats the literal prefix
    [cache:] literally (as Redis's does): the key [rate_limit:{id}] keeps
    its value. *)
Lemma invalidate_cache_pattern_keeps_buckets (glob_match : string -> string -> bool)
    (pattern client_id : string) (st : gstate) :
  (forall p k, glob_match ("cache:" ++ p) k = true -> exists rest, k = "cache:" ++ rest) ->
  db (snd (invalidate_cache_pattern glob_match pattern st)) !! ("rate_limit:" ++ client_id) =
  db st !! ("rate_limit:" ++ client_id).
Proof.
  intros Hg. rewrite invalidate_cache_pattern_spec. cbn [snd db set_db].
  rewrite fold_delete_lookup.
  destruct (in_dec string_dec _ _) as [H|H]; [|reflexivity].
  rewrite redis_keys_in in H. apply andb_true_iff in H as [_ H].
  destruct (Hg _ _ H) as [rest E]. discriminate E.
Qed.

(** [DELETE /admin/cache] has the store effect of invalidating the
    pattern [*], and the [keys_deleted] it reports is the number of keys
    that disappeared from the store. *)
Lemma clear_cache_reports_deleted (glob_match : string -> string -> bool) (st : gstate) :
  exists n,
    clear_cache glob_match st =
      (inr (mk_response (ascii_bytes (clear_cache_body (Z.of_nat n))) 200 [] (Some "application/json")),
       snd (invalidate_cache_pattern glob_match "*" st)) /\
    (n + size (db (snd (invalidate_cache_pattern glob_match "*" st))) = size (db st))%nat.
Proof.
  rewrite invalidate_cache_pattern_spec. cbn [snd db set_db].
  pose proof (redis_keys_nodup glob_match "cache:*" st) as Hn.
  pose proof (fun k => proj1 (redis_keys_in glob_match "cache:*" st k)) as Hin.
  unfold clear_cache, bind, redis_keys. cbn [fst snd].
  change ("cache:" ++ "*") with "cache:*".
  remember (List.filter (fun k => live_key st k && glob_match "cache:*" k)
                        (map fst (map_to_list (db st)))) as L eqn:EL.
  exists (length L). split.
  - destruct L as [|x L']; cbn; [|reflexivity].
    destruct st; reflexivity.
  - rewrite Nat.add_comm. apply fold_delete_size; [exact Hn|].
    intros k Hk. apply live_key_lookup. apply Hin in Hk. apply andb_true_iff in Hk. tauto.
Qed.

(** ** What the cache writes *)

(** [cache_response] writes at most the request's own cache key: every
    other key keeps its value and expiry, and since that key starts with
    [cache:] it is never a rate-limit bucket [rate_limit:{id}]. *)
Lemma cache_response_only_its_key (md5_hex : string -> string) (c : cache_mw) (r : request)
    (rs : response) (content : list byte) (ttl : option Z) (st : gstate) :
  (forall k, k <> _generate_cache_key md5_hex r ->
     db (snd (cache_response md5_hex c r rs content ttl st)) !! k = db st !! k) /\
  (forall client_id, _generate_cache_key md5_hex r <> "rate_limit:" ++ client_id).
Proof.
  split; [|intros client_id E; discriminate E].
  intros k Hk. unfold cache_response.
  destruct (negb (should_cache_response rs)); [reflexivity|].
  assert (W : forall key ttl',
            db (snd (cache_write key ttl' rs content st)) = db st \/
            exists v, db (snd (cache_write key ttl' rs content st)) = <[key := v]> (db st)).
  { intros key ttl'. unfold cache_write, bind, time_now, raise, ret, redis_setex.
    destruct content as [|b bs]; [|destruct (utf8_decode (b :: bs))];
      cbn [fst snd]; try (left; reflexivity);
      destruct (0 <? ttl')%Z; cbn [fst snd db set_db]; eauto. }
  unfold try_all.
  destruct (W (_generate_cache_key md5_hex r) (z_or ttl (default_ttl c))) as [H|[v H]];
  destruct (cache_write _ _ rs content st) as [[e|u] st1]; cbn [snd] in *; cbv [ret];
    cbn [snd]; rewrite H; try reflexivity; apply lookup_insert_ne; congruence.
Qed.

(** ** [ResponseCache.get_cached_response]: reads only *)

(** A cache lookup never fails the request and never changes the store:
    whatever is stored under the key (nothing, an expired entry, or a
    value of the wrong type, whose read error is swallowed), the lookup
    returns normally with the state unchanged. *)
Lemma cache_lookup_never_fails (md5_hex : string -> string) (r : request) (st : gstate) :
  exists x, get_cached_response md5_hex r st = (inr x, st).
Proof.
  destruct (get_cached_response_no_raise md5_hex r st) as [x Hx].
  exists x. rewrite (surjective_pairing (get_cached_response md5_hex r st)), Hx,
    get_cached_response_state. reflexivity.
Qed.

(** ** Bucket expiry *)

Lemma redis_hmget_no_string (k : string) (st : gstate) :
  (forall ce e, db st !! k <> Some (RStr ce, e)) ->
  exists b, fst (redis_hmget k st) = inr b.
Proof.
  intros Hs. unfold redis_hmget, redis_lookup. cbv [bind ret raise]. cbn [fst].
  destruct (db st !! k) as [[v [exp|]]|] eqn:E.
  - destruct (Qlt_le_dec (clock st) exp); [|eexists; reflexivity].
    destruct v as [t l|ce]; [eexists; reflexivity | exfalso; exact (Hs ce _ eq_refl)].
  - destruct v as [t l|ce]; [eexists; reflexivity | exfalso; exact (Hs ce _ eq_refl)].
  - eexists; reflexivity.
Qed.

(** A client that stays idle for three windows gets a full bucket back.
    After a call that meets no store fault (and no foreign value under the
    bucket key), the bucket expires [3 * window] seconds later; a call at
    any later instant with no store fault is admitted with
    [remaining = per - 1], however many tokens were left. *)
Lemma rate_limit_idle_bucket_resets (per w : Z) (lim : limiter) (client_id : string)
    (st : gstate) (later : Q) :
  new_limiter per w = inr lim -> (1 <= per)%Z -> (0 < w)%Z -> faults st = [] ->
  (forall ce e, db st !! ("rate_limit:" ++ client_id) <> Some (RStr ce, e)) ->
  (clock st + inject_Z (3 * w) < later)%Q ->
  let st1 := snd (is_rate_limited lim client_id st) in
  fst (is_rate_limited lim client_id (mkState (db st1) later (faults st1) (origin_log st1))) =
  inr (Some (false, (per - 1)%Z)).
Proof.
  intros Hl Hp Hw Ef Hs Ht. cbv zeta.
  unfold new_limiter in Hl. destruct (w =? 0)%Z; [discriminate|]. injection Hl as <-.
  set (lim := mkLimiter per (inject_Z per / inject_Z w) w).
  assert (Hw3 : (0 < window_size lim * 3)%Z) by (simpl; lia).
  destruct (redis_hmget_no_string _ st Hs) as [b Hb].
  rewrite (is_rate_limited_no_fault lim client_id st b Ef Hw3 Hb). cbn [snd db faults origin_log set_db].
  set (st2 := mkState _ later _ _).
  assert (Hb2 : fst (redis_hmget ("rate_limit:" ++ client_id) st2) = inr (None, None)).
  { unfold redis_hmget, redis_lookup. cbv [bind ret]. subst st2. cbn [db clock].
    rewrite lookup_insert_eq. destruct (Qlt_le_dec later _) as [A|_]; [|reflexivity].
    exfalso. simpl window_size in A. rewrite Z.mul_comm in A. lra. }
  rewrite (is_rate_limited_no_fault lim client_id st2 (None, None) Ef Hw3 Hb2). cbn [fst].
  destruct (bucket_same_instant lim (clock st2) None None per) as [B _];
    [reflexivity | reflexivity | simpl; lia|].
  destruct (B Hp) as [F T]. rewrite F, (py_int_comp _ _ T), py_int_Z by lia. reflexivity.
Qed.

(** ** Worked instances of the properties above *)

Lemma cache_write_then_read_witness :
  let st2 := mkState (db (snd (cache_response ex_md5 ex_cache (ex_get "/a" []) ex_text_response
                                 (ascii_bytes "ok") None ex_state))) 100 [] [] in
  get_cached_response ex_md5 (ex_get "/a" []) st2 =
    (inr (Some (ascii_bytes "ok", 200%Z, [("content-type", "text/plain")])), st2).
Proof.
  intros st2.
  exact (cache_write_then_read ex_md5 ex_cache (ex_get "/a" []) ex_text_response (ascii_bytes "ok")
           [111; 107]%Z ex_state st2 eq_refl eq_refl eq_refl ltac:(vm_compute; reflexivity)
           eq_refl ltac:(vm_compute; reflexivity)).
Defined.

Lemma cache_entry_expires_witness :
  let st2 := mkState (db (snd (cache_response ex_md5 ex_cache (ex_get "/a" []) ex_text_response
                                 (ascii_bytes "ok") None ex_state))) 301 [] [] in
  get_cached_response ex_md5 (ex_get "/a" []) st2 = (inr None, st2).
Proof.
  intros st2.
  exact (cache_entry_expires ex_md5 ex_cache (ex_get "/a" []) ex_text_response (ascii_bytes "ok")
           [111; 107]%Z ex_state st2 eq_refl eq_refl ltac:(vm_compute; reflexivity)
           eq_refl ltac:(vm_compute; reflexivity)).
Defined.

Lemma cache_ttl_nonpositive_stores_nothing_witness :
  cache_response ex_md5 (new_cache_mw (mkSettings true 0 true 60 60) (Some 0%Z) None)
    (ex_get "/a" []) ex_text_response (ascii_bytes "ok") None ex_state = (inr tt, ex_state).
Proof.
  exact (cache_ttl_nonpositive_stores_nothing ex_md5 (mkSettings true 0 true 60 60) (ex_get "/a" [])
           ex_text_response (ascii_bytes "ok") ex_state ltac:(simpl; lia)).
Defined.

Lemma cache_hit_replays_response_witness :
  let st2 := mkState (db (snd (cache_dispatch ex_md5 ex_cache ex_ok_handler (ex_get "/a" [])
                                 ex_state))) 10 [] [] in
  exists rs, cache_dispatch ex_md5 ex_cache ex_ok_handler (ex_get "/a" []) st2 = (inr rs, st2) /\
    rs_body rs = ascii_bytes "ok" /\ rs_status rs = 200%Z /\
    hdr_get "X-Cache" (rs_headers rs) = Some "HIT".
Proof.
  intros st2.
  exact (cache_hit_replays_response ex_md5 ex_cache ex_ok_handler (ex_get "/a" []) ex_state
           ex_text_response ex_state [111; 107]%Z st2 eq_refl eq_refl ltac:(vm_compute; reflexivity)
           eq_refl eq_refl ltac:(simpl; lia)
           ltac:(intros k w [H|[]]; injection H as <- <-; intro H; vm_compute in H; discriminate H)
           eq_refl eq_refl ltac:(vm_compute; reflexivity)).
Defined.

Lemma cache_bypassed_request_still_written_witness :
  exists rs st', cache_dispatch ex_md5 ex_cache ex_ok_handler (ex_post "/a" []) ex_state = (inr rs, st') /\
    rs_body rs = ascii_bytes "ok" /\ rs_status rs = 200%Z /\
    (exists e, db st' !! _generate_cache_key ex_md5 (ex_post "/a" []) =
                 Some (RStr e, Some (clock ex_state + inject_Z 300))%Q /\
               utf8_encode (ce_content e) = ascii_bytes "ok" /\ ce_status e = 200%Z) /\
    (forall k, k <> _generate_cache_key ex_md5 (ex_post "/a" []) -> db st' !! k = db ex_state !! k).
Proof.
  exact (cache_bypassed_request_still_written ex_md5 ex_cache ex_ok_handler (ex_post "/a" []) ex_state
           ex_text_response ex_state [111; 107]%Z eq_refl eq_refl ltac:(vm_compute; reflexivity)
           eq_refl ltac:(simpl; lia)
           ltac:(intros k w [H|[]]; injection H as <- <-; intro H; vm_compute in H; discriminate H)
           eq_refl).
Defined.

Lemma cache_error_status_not_stored_witness :
  exists rs, cache_dispatch ex_md5 ex_cache ex_notfound_handler (ex_get "/a" []) ex_state =
               (inr rs, ex_state) /\
    rs_body rs = ascii_bytes "missing" /\ rs_status rs = 404%Z.
Proof.
  exact (cache_error_status_not_stored ex_md5 ex_cache ex_notfound_handler (ex_get "/a" []) ex_state
           (mkResponse 404 [("content-type", "text/plain")] (ascii_bytes "missing")) ex_state
           eq_refl eq_refl eq_refl ltac:(simpl; lia)).
Defined.

Lemma is_rate_limited_answer_witness :
  exists limited remaining,
    fst (is_rate_limited ex_lim60 "c" ex_state) = inr (Some (limited, remaining)) /\
    (limited = true -> remaining = 0%Z) /\ (0 <= remaining <= 60)%Z.
Proof.
  exact (is_rate_limited_answer 60 60 ex_lim60 "c" ex_state eq_refl ltac:(lia) ltac:(lia) I).
Defined.

Lemma rate_limit_burst_witness :
  let s := run_calls ex_lim60 "c" (repeat 5%Q 3) ex_state in
  fst (is_rate_limited ex_lim60 "c" (mkState (db s) 5 (faults s) (origin_log s))) =
  inr (Some (false, 56%Z)).
Proof.
  exact (rate_limit_burst 60 60 ex_lim60 "c" 5 3 ex_state eq_refl ltac:(lia) ltac:(lia) eq_refl eq_refl).
Defined.

Lemma is_rate_limited_other_keys_witness :
  db (snd (is_rate_limited ex_lim60 "c" ex_state)) !! "cache:x" = db ex_state !! "cache:x".
Proof.
  exact (is_rate_limited_other_keys ex_lim60 "c" ex_state "cache:x" ltac:(discriminate)).
Defined.

Lemma rate_limit_denial_skips_handler_witness :
  rate_limit_dispatch ex_lim60 ex_ok_handler (ex_get "/api/data" []) ex_empty_bucket_state =
  (inr (detail_response "Too many requests" 429
          (rate_limit_headers ex_lim60 0 (py_int (0 + 1 / refill_rate ex_lim60) + 1))),
   snd (is_rate_limited ex_lim60 "ip:203.0.113.7" ex_empty_bucket_state)).
Proof.
  exact (rate_limit_denial_skips_handler ex_lim60 ex_ok_handler (ex_get "/api/data" [])
           ex_empty_bucket_state 0 ltac:(discriminate) ltac:(vm_compute; reflexivity)
           ltac:(vm_compute; discriminate)).
Defined.

Lemma gateway_zero_window_fails_witness :
  gateway ex_md5 ex_jwt ex_origin ex_local (mkSettings true 300 true 60 0) (ex_get "/health" [])
    ex_state = (inl ZeroDivisionError, ex_state).
Proof.
  exact (gateway_zero_window_fails ex_md5 ex_jwt ex_origin ex_local (mkSettings true 300 true 60 0)
           (ex_get "/health" []) ex_state eq_refl eq_refl).
Defined.

Lemma gateway_auth_rejection_touches_nothing_witness :
  exists msg status,
    gateway ex_md5 ex_jwt ex_origin ex_local ex_settings (ex_get "/api/data" []) ex_state =
      (inr (detail_response msg status []), ex_state) /\ (status = 401 \/ status = 500)%Z.
Proof.
  destruct (main_middleware ex_settings) as [e|stack] eqn:E; [vm_compute in E; discriminate E|].
  exact (gateway_auth_rejection_touches_nothing ex_md5 ex_jwt ex_origin ex_local ex_settings stack
           (ex_get "/api/data" []) ex_state E ltac:(discriminate)
           ltac:(intros a p H; discriminate H)).
Defined.

Lemma route_origin_failure_bad_gateway_witness :
  router_app ex_down_origin ex_local (ex_get "/api/data" []) ex_state =
  (inr (detail_response "Bad Gateway" 502 []),
   mkState (db ex_state) (clock ex_state) (faults ex_state)
           (origin_log ex_state ++ [forwarded_request (ex_get "/api/data" [])])).
Proof.
  exact (route_origin_failure_bad_gateway ex_down_origin ex_local (ex_get "/api/data" []) ex_state
           ltac:(discriminate) eq_refl ltac:(left; reflexivity) eq_refl).
Defined.

Lemma invalidate_cache_pattern_keeps_buckets_witness :
  db (snd (invalidate_cache_pattern String.eqb "x" ex_empty_bucket_state))
    !! ("rate_limit:" ++ "ip:203.0.113.7") =
  db ex_empty_bucket_state !! ("rate_limit:" ++ "ip:203.0.113.7").
Proof.
  exact (invalidate_cache_pattern_keeps_buckets String.eqb "x" "ip:203.0.113.7" ex_empty_bucket_state
           ltac:(intros p k H; apply String.eqb_eq in H; exists p; symmetry; exact H)).
Defined.

Lemma rate_limit_idle_bucket_resets_witness :
  let st1 := snd (is_rate_limited ex_lim60 "c" ex_state) in
  fst (is_rate_limited ex_lim60 "c" (mkState (db st1) 181 (faults st1) (origin_log st1))) =
  inr (Some (false, 59%Z)).
Proof.
  exact (rate_limit_idle_bucket_resets 60 60 ex_lim60 "c" ex_state 181 eq_refl ltac:(lia) ltac:(lia)
           eq_refl ltac:(intros ce e H; vm_compute in H; discriminate H)
           ltac:(vm_compute; reflexivity)).
Defined.
